(** * Ot2Rec: reconciliation and resumable dispatch of the processing stages

    A shallow embedding of the parts of [Ot2Rec] that decide which images
    and tilt-series still need work, how the external tools are driven and
    how progress is checkpointed:

    - [main.get_proj_name]                                   (main.py)
    - [motioncorr.Motioncorr] and [motioncorr.update_yaml]   (motioncorr.py)
    - [align.Align] and [align.update_yaml]                  (align.py)

    Python objects are records, methods are functions in a state-and-error
    monad over the world outside the interpreter (files on disk, the
    persisted metadata record, the log), and pandas tables are lists of
    labelled rows. *)

From Stdlib Require Import Ascii.
From Stdlib Require Import Floats.SpecFloat.
From Equations Require Import Equations.
From stdpp Require Import base decidable option list strings gmap sorting pretty.

Local Open Scope string_scope.
Local Open Scope list_scope.
Local Open Scope Z_scope.

(** ** Python exceptions and the effect monad *)

Inductive Exception :=
  | ValueError (msg : string)
  | IndexError (msg : string)
  | KeyError (msg : string)
  | IndexingError (msg : string)
  | CalledProcessError (returncode : Z)
  | UnicodeDecodeError (encoding : string).

(** The outcome of running a piece of Python: it returns, it raises, or
    the model's loop budget is used up (the source loop may spin forever). *)
Inductive Result (A : Type) :=
  | Return (a : A)
  | Raise (e : Exception)
  | OutOfFuel.
Arguments Return {A} a.
Arguments Raise {A} e.
Arguments OutOfFuel {A}.

Definition M (S A : Type) : Type := S → Result A * S.

Definition ret {S A} (a : A) : M S A := λ s, (Return a, s).
Definition raise {S A} (e : Exception) : M S A := λ s, (Raise e, s).
Definition out_of_fuel {S A} : M S A := λ s, (OutOfFuel, s).
Definition bind {S A B} (m : M S A) (k : A → M S B) : M S B :=
  λ s, match m s with
       | (Return a, s') => k a s'
       | (Raise e, s') => (Raise e, s')
       | (OutOfFuel, s') => (OutOfFuel, s')
       end.
Definition get {S} : M S S := λ s, (Return s, s).
Definition modify {S} (f : S → S) : M S unit := λ s, (Return tt, f s).

#[global] Instance M_ret {S} : MRet (M S) := @ret S.
#[global] Instance M_bind {S} : MBind (M S) := λ A B k m, bind m k.

(** [for x in l: body(x, acc)], threading the loop-carried value. *)
Fixpoint for_each {S A B} (l : list A) (body : A → B → M S B) (acc : B) : M S B :=
  match l with
  | [] => ret acc
  | x :: l' => acc' ← body x acc; for_each l' body acc'
  end.

(** ** pandas tables

    A [DataFrame] is a list of rows, each carrying its index label.  The
    label matters in exactly one place of the source, the boolean mask
    [df[mask]], which pandas aligns on labels. *)

Module pd.
Section frame.
Context {R : Type} `{EqDecision R}.

Definition frame := list (nat * R).

Definition rows (df : frame) : list R := df.*2.
Definition len (df : frame) : nat := length df.

(** [pd.DataFrame(data)] from column lists: a fresh RangeIndex. *)
Definition DataFrame (data : list R) : frame := zip (seq 0 (length data)) data.

(** [df[df[col].apply(f)]], [df.loc[...]], [df[df[col].isin(...)]]: a mask
    computed from the frame itself keeps the selected rows and labels. *)
Definition loc (f : R → bool) (df : frame) : frame :=
  List.filter (λ p, f p.2) df.

(** [pd.concat(dfs, ignore_index=True)] *)
Definition concat_ignore_index (dfs : list frame) : frame :=
  DataFrame (mjoin (rows <$> dfs)).

(** [series.unique()] and [df.drop_duplicates()]: first occurrences, in
    order of appearance; [drop_duplicates] keeps their labels. *)
Fixpoint drop_duplicates_from (seen : list R) (df : frame) : frame :=
  match df with
  | [] => []
  | p :: df' =>
      if bool_decide (p.2 ∈ seen) then drop_duplicates_from seen df'
      else p :: drop_duplicates_from (p.2 :: seen) df'
  end.
Definition drop_duplicates (df : frame) : frame := drop_duplicates_from [] df.

(** The [_merge] column of [left.merge(right, how='left', indicator=True)]
    compared with ['left_only'].  The join is on all shared columns, here
    the whole row; a left row with k >= 1 equal right rows yields k result
    rows marked ['both'], a left row with none yields one marked
    ['left_only'].  The result carries a fresh RangeIndex. *)
Definition count_eq (r : R) (l : list R) : nat :=
  length (List.filter (λ x, bool_decide (x = r)) l).
Definition merge_left_only (left right : list R) : list bool :=
  l ← left;
  match count_eq l right with
  | O => [true]
  | k => replicate k false
  end.

(** [df[mask]] for a boolean Series [mask] with a RangeIndex: the mask is
    reindexed to the labels of [df]; a label of [df] the mask does not have
    is pandas' "Unalignable boolean Series provided as indexer". *)
Definition getitem_bool (df : frame) (mask : list bool) : Exception + frame :=
  if forallb (λ p : nat * R, bool_decide (p.1 < length mask)%nat) df
  then inr (List.filter (λ p : nat * R, default false (mask !! p.1)) df)
  else inl (IndexingError "Unalignable boolean Series provided as indexer").
End frame.
Arguments frame R : clear implicits.

(** [series.sort_values(ascending=True).unique().tolist()] on integers. *)
Fixpoint unique_from (seen : list Z) (l : list Z) : list Z :=
  match l with
  | [] => []
  | x :: l' =>
      if bool_decide (x ∈ seen) then unique_from seen l'
      else x :: unique_from (x :: seen) l'
  end.
Definition unique (l : list Z) : list Z := unique_from [] l.
Definition sort_values (l : list Z) : list Z := merge_sort Z.le l.
End pd.

(** Lift a pandas operation that may raise. *)
Definition lift {S A} (r : Exception + A) : M S A :=
  match r with inl e => raise e | inr a => ret a end.

(** ** Strings *)

(** [s.find(c)] for a one-character needle: index of the first occurrence,
    or -1. *)
Fixpoint find_from (i : Z) (c : ascii) (s : string) : Z :=
  match s with
  | EmptyString => -1
  | String a s' => if bool_decide (a = c) then i else find_from (i + 1) c s'
  end.
Definition find (s : string) (c : ascii) : Z := find_from 0 c s.

(** [while s.endswith(c): s = s[:-1]] *)
Fixpoint strip_trailing (c : ascii) (s : string) : string :=
  match s with
  | EmptyString => EmptyString
  | String a s' =>
      match strip_trailing c s' with
      | EmptyString => if bool_decide (a = c) then EmptyString else String a EmptyString
      | t => String a t
      end
  end.

(** [if s.endswith(c): s = s[:-1]] *)
Fixpoint strip_one_trailing (c : ascii) (s : string) : string :=
  match s with
  | EmptyString => EmptyString
  | String a EmptyString => if bool_decide (a = c) then EmptyString else s
  | String a s' => String a (strip_one_trailing c s')
  end.

(** Python's [f"{n:0w}"] for an integer: decimal, zero-padded to width [w],
    the sign counted in the width and written before the zeros. *)
Definition zfill (w : nat) (digits : string) : string :=
  String.concat EmptyString (replicate (w - String.length digits) "0") +:+ digits.
Definition format_int (w : nat) (n : Z) : string :=
  if bool_decide (n < 0)
  then "-" +:+ zfill (w - 1) (pretty (Z.to_N (- n)))
  else zfill w (pretty (Z.to_N n)).

(** The lines the two stages hand to their logger. *)
Definition missing_message (n : nat) : string :=
  "Info: " +:+ pretty n +:+ " images in record missing in folder. "
  +:+ "Will be added back for processing.".
Definition omitted_message (n : nat) : string :=
  "Info: " +:+ pretty n +:+ " images had been processed and will be omitted.".
Definition all_processed_message : string :=
  "Info: All specified images had been processed. Nothing will be done.".

(** ** Bytes and their decoding

    What an external program writes is a byte string.  A [string] holds the
    bytes; a text that was decoded from bytes is kept as those bytes. *)

Definition in_range (lo hi b : N) : bool := (lo <=? b)%N && (b <=? hi)%N.

(** The byte sequences the strict UTF-8 codec accepts: one byte below 128,
    or a lead byte followed by its continuation bytes, without overlong
    forms, surrogates or code points above U+10FFFF. *)
Fixpoint well_formed_utf8 (bs : list N) : bool :=
  match bs with
  | [] => true
  | b0 :: bs1 =>
      if (b0 <? 128)%N then well_formed_utf8 bs1
      else if in_range 194 223 b0 then
        match bs1 with
        | b1 :: bs2 => in_range 128 191 b1 && well_formed_utf8 bs2
        | _ => false
        end
      else if in_range 224 239 b0 then
        match bs1 with
        | b1 :: b2 :: bs3 =>
            in_range (if (b0 =? 224)%N then 160 else 128)
                     (if (b0 =? 237)%N then 159 else 191) b1
            && in_range 128 191 b2 && well_formed_utf8 bs3
        | _ => false
        end
      else if in_range 240 244 b0 then
        match bs1 with
        | b1 :: b2 :: b3 :: bs4 =>
            in_range (if (b0 =? 240)%N then 144 else 128)
                     (if (b0 =? 244)%N then 143 else 191) b1
            && in_range 128 191 b2 && in_range 128 191 b3 && well_formed_utf8 bs4
        | _ => false
        end
      else false
  end.

Definition bytes_of (b : string) : list N :=
  N_of_ascii <$> String.list_ascii_of_string b.

(** [b.decode('UTF-8')] *)
Definition decode_utf8 (b : string) : Exception + string :=
  if well_formed_utf8 (bytes_of b) then inr b
  else inl (UnicodeDecodeError "utf-8").

(** Decoding with [encoding='ascii']: every byte is below 128. *)
Definition is_ascii (b : string) : bool :=
  forallb (λ c, (c <? 128)%N) (bytes_of b).
Definition decode_ascii (b : string) : Exception + string :=
  if is_ascii b then inr b else inl (UnicodeDecodeError "ascii").

(** ** main.py *)

Module main.

Definition illegal_characters : list ascii :=
  ["<"; ">"; ":"; "034"; "/"; "\"; "|"; "?"; "*"]%char.

Definition illegal_character_message (char : ascii) : string :=
  "Error in Ot2Rec.main.new_proj: Illegal character (" +:+ String char EmptyString
  +:+ ") found in input project name.".

(** The validity loop of [get_proj_name]. *)
Fixpoint check_validity (project_name : string) (chars : list ascii)
  : Exception + string :=
  match chars with
  | [] => inr project_name
  | char :: chars' =>
      if bool_decide (find project_name char ≠ -1)
      then inl (ValueError (illegal_character_message char))
      else check_validity project_name chars'
  end.

(** [get_proj_name()], reading [sys.argv]. *)
Definition get_proj_name (argv : list string) : Exception + string :=
  match argv !! 1%nat with
  | None => inl (IndexError "list index out of range")
  | Some project_name => check_validity project_name illegal_characters
  end.

End main.

(** ** The world outside the interpreter *)

(** What an external program did: exit status, the text it wrote to its
    standard output and to its error stream, and the regular files on disk
    when it exits. *)
Record Process := {
  returncode : Z;
  out : string;
  err : string;
  files_after : gset string;
}.

(** ** motioncorr.py *)

Module motioncorr.

(** A row of the master metadata as [Motioncorr] uses it.  Tilt angles are
    floats in the source; they are only compared and printed, so a row holds
    the printed form.  The optional dose columns, which only add arguments to
    the command line, are left out. *)
Record md_row := {
  md_file_paths : string;
  md_ts : Z;
  md_image_idx : Z;
  md_angles : string;
}.

(** A row of [self.meta] and [self.meta_out]. *)
Record row := {
  file_paths : string;
  ts : Z;
  image_idx : Z;
  angles : string;
  output : string;
  gpu : string;
}.

#[global] Instance row_eq_dec : EqDecision row.
Proof. solve_decision. Defined.

(** The entries of [params['System']] the dispatcher reads. *)
Record Params := {
  process_list : list Z;
  output_path : string;
  output_prefix : string;
  jobs_per_gpu : Z;
}.

(** The [image] tuple handed to [_get_command]; the argument list built from
    it is fixed by this tuple and the parameters of the run. *)
Record command := {
  in_path : string;
  out_path : string;
  gpu_number : string;
}.

(** [(_in, _out, _gpu)] of a row, as zipped in [run_mc2]. *)
Definition image_tuple (r : row) : command :=
  {| in_path := file_paths r; out_path := output r; gpu_number := gpu r |}.

Record Motioncorr := {
  proj_name : string;
  log : list string;
  params : Params;
  _process_list : list Z;
  meta : pd.frame row;
  use_gpu : list string;
  no_processes : bool;
  meta_out : pd.frame row;
  _missing_specified : pd.frame row;
  _curr_meta : pd.frame row;
}.

Definition set_log (v : list string) (self : Motioncorr) : Motioncorr :=
  {| proj_name := proj_name self; log := v; params := params self;
     _process_list := _process_list self; meta := meta self;
     use_gpu := use_gpu self; no_processes := no_processes self;
     meta_out := meta_out self; _missing_specified := _missing_specified self;
     _curr_meta := _curr_meta self |}.
Definition set_meta (v : pd.frame row) (self : Motioncorr) : Motioncorr :=
  {| proj_name := proj_name self; log := log self; params := params self;
     _process_list := _process_list self; meta := v;
     use_gpu := use_gpu self; no_processes := no_processes self;
     meta_out := meta_out self; _missing_specified := _missing_specified self;
     _curr_meta := _curr_meta self |}.
Definition set_no_processes (v : bool) (self : Motioncorr) : Motioncorr :=
  {| proj_name := proj_name self; log := log self; params := params self;
     _process_list := _process_list self; meta := meta self;
     use_gpu := use_gpu self; no_processes := v;
     meta_out := meta_out self; _missing_specified := _missing_specified self;
     _curr_meta := _curr_meta self |}.
Definition set_meta_out (v : pd.frame row) (self : Motioncorr) : Motioncorr :=
  {| proj_name := proj_name self; log := log self; params := params self;
     _process_list := _process_list self; meta := meta self;
     use_gpu := use_gpu self; no_processes := no_processes self;
     meta_out := v; _missing_specified := _missing_specified self;
     _curr_meta := _curr_meta self |}.
Definition set_missing_specified (v : pd.frame row) (self : Motioncorr) : Motioncorr :=
  {| proj_name := proj_name self; log := log self; params := params self;
     _process_list := _process_list self; meta := meta self;
     use_gpu := use_gpu self; no_processes := no_processes self;
     meta_out := meta_out self; _missing_specified := v;
     _curr_meta := _curr_meta self |}.
Definition set_curr_meta (v : pd.frame row) (self : Motioncorr) : Motioncorr :=
  {| proj_name := proj_name self; log := log self; params := params self;
     _process_list := _process_list self; meta := meta self;
     use_gpu := use_gpu self; no_processes := no_processes self;
     meta_out := meta_out self; _missing_specified := _missing_specified self;
     _curr_meta := v |}.

(** What the run does to the outside, in order.  [Export] carries the object
    as it stands when the record is written. *)
Inductive event :=
  | NvidiaSmi
  | Mkdir (path : string) (status : Z)
  | Popen (cmd : command)
  | Communicate (cmd : command) (status : Z)
  | Export (self : Motioncorr).

Record World := {
  files : gset string;                  (* regular files: [os.path.isfile] *)
  dirs : gset string;                   (* directories: [os.path.isdir] *)
  mkdir_status : string → Z;            (* what [mkdir path] would exit with *)
  mkdir_output : string → string;       (* and what it would write *)
  mc2_mdout : option (pd.frame row);    (* <project>_mc2_mdout.yaml *)
  logged : list string;                 (* lines given to the logger *)
  trace : list event;
}.

Definition set_files (v : gset string) (w : World) : World :=
  {| files := v; dirs := dirs w; mkdir_status := mkdir_status w;
     mkdir_output := mkdir_output w; mc2_mdout := mc2_mdout w; logged := logged w; trace := trace w |}.
Definition set_dirs (v : gset string) (w : World) : World :=
  {| files := files w; dirs := v; mkdir_status := mkdir_status w;
     mkdir_output := mkdir_output w; mc2_mdout := mc2_mdout w; logged := logged w; trace := trace w |}.
Definition set_mc2_mdout (v : option (pd.frame row)) (w : World) : World :=
  {| files := files w; dirs := dirs w; mkdir_status := mkdir_status w;
     mkdir_output := mkdir_output w; mc2_mdout := v; logged := logged w; trace := trace w |}.
Definition set_logged (v : list string) (w : World) : World :=
  {| files := files w; dirs := dirs w; mkdir_status := mkdir_status w;
     mkdir_output := mkdir_output w; mc2_mdout := mc2_mdout w; logged := v;
     trace := trace w |}.
Definition set_trace (v : list event) (w : World) : World :=
  {| files := files w; dirs := dirs w; mkdir_status := mkdir_status w;
     mkdir_output := mkdir_output w; mc2_mdout := mc2_mdout w;
     logged := logged w; trace := v |}.
Definition emit (e : event) (w : World) : World := set_trace (trace w ++ [e]) w.

Definition isfile (w : World) (x : string) : bool := bool_decide (x ∈ files w).
Definition isdir (w : World) (x : string) : bool := bool_decide (x ∈ dirs w).

(** Modelled from the spec: [logger.Logger] is not among the sources; a call
    [self.logObj(msg)] produces one log/report line. *)
Definition logObj (msg : string) : M World unit :=
  modify (λ w, set_logged (logged w ++ [msg]) w).

(** [sys.maxsize] of a 64-bit interpreter. *)
Definition sys_maxsize : Z := 2 ^ 63 - 1.

(** [Motioncorr._yield_chunks]: the chunks the generator yields when each
    one is consumed before the next is asked for, as [run_mc2] does.
    [itertools.islice] refuses a stop that is negative or above
    [sys.maxsize]. *)
Equations? chunks_of {A} (n : nat) (iterator : list A) : list (list A)
  by wf (length iterator) lt :=
  chunks_of n [] := [];
  chunks_of n (first :: rest) := (first :: take n rest) :: chunks_of n (drop n rest).
Proof. rewrite length_drop. simpl. lia. Qed.

Definition _yield_chunks {A} (iterable : list A) (size : Z)
  : Exception + list (list A) :=
  match iterable with
  | [] => inr []
  | _ =>
      if bool_decide (size - 1 < 0) || bool_decide (sys_maxsize < size - 1)
      then inl (ValueError "Stop argument for islice() must be None or an integer: 0 <= x <= sys.maxsize.")
      else inr (chunks_of (Z.to_nat (size - 1)) iterable)
  end.

Section machine.
(** The machine the run is on: what [nvidia-smi] answers, as the pairs
    (GPU id, UUID) of [--list-gpus] and the UUID lines of
    [--query-compute-apps], and what MotionCor2 does for a command on a
    given disk. *)
Context (nvidia_smi : Exception + list (string * string) * list string).
Context (MotionCor2 : command → gset string → Process).

(** [Motioncorr._get_gpu_nvidia_smi] *)
Definition _get_gpu_nvidia_smi : M World (list string) :=
  _ ← modify (emit NvidiaSmi);
  nv ← lift nvidia_smi;
  let '(nv_uuid, nv_processes) := nv in
  let visible_gpu :=
    (List.filter (λ g : string * string, negb (bool_decide (g.2 ∈ nv_processes)))
                 nv_uuid).*1 in
  match visible_gpu with
  | [] => raise (ValueError ("Error in metadata._get_gpu_from_nvidia_smi: "
                   +:+ pretty (length nv_uuid)
                   +:+ " GPU detected, but none of them is free."))
  | _ => ret visible_gpu
  end.

(** [Motioncorr._set_output_path], for one row. *)
Definition _set_output_path (prm : Params) (r : md_row) : string :=
  output_path prm +:+ output_prefix prm +:+ "_" +:+ format_int 3 (md_ts r)
  +:+ "_" +:+ md_angles r +:+ ".mrc".

(** [Motioncorr._check_processed_images] *)
Definition _check_processed_images (self : Motioncorr) : M World Motioncorr :=
  w ← get;
  (* the persisted record, or an empty table *)
  let self := set_meta_out (default [] (mc2_mdout w)) self in
  self ←
    (if bool_decide (0 < pd.len (meta_out self))%nat then
       let _missing := pd.loc (λ r, negb (isfile w (output r))) (meta_out self) in
       let self :=
         set_missing_specified
           (pd.concat_ignore_index
              (pd.DataFrame [] ::
               ((λ curr_ts, pd.loc (λ r, bool_decide (ts r = curr_ts)) _missing)
                  <$> process_list (params self)))) self in
       let _merged :=
         pd.merge_left_only (pd.rows (meta_out self))
                            (pd.rows (_missing_specified self)) in
       kept ← lift (pd.getitem_bool (meta_out self) _merged);
       let self := set_meta_out kept self in
       _ ← (if bool_decide (0 < pd.len (_missing_specified self))%nat
            then logObj (missing_message (pd.len (_missing_specified self)))
            else ret tt);
       ret self
     else ret self);
  (* drop the items of the input metadata that are in the output record *)
  let in_record (r : row) : bool :=
    bool_decide (output r ∈ output <$> pd.rows (meta_out self)) in
  let _ignored := pd.loc in_record (meta self) in
  self ←
    (if bool_decide (0 < pd.len _ignored)%nat
        && bool_decide (pd.len _ignored < pd.len (meta self))%nat
     then
       _ ← logObj (omitted_message (pd.len _ignored));
       ret self
     else if bool_decide (pd.len _ignored = pd.len (meta self)) then
       _ ← logObj all_processed_message;
       ret (set_no_processes true self)
     else ret self);
  ret (set_meta (pd.loc (λ r, negb (in_record r)) (meta self)) self).

(** The end of [Motioncorr.__init__]:
    [subprocess.run(['mkdir', path], stdout=PIPE, stderr=PIPE,
    encoding='ascii', check=True)] when the folder is not there.  The
    program has run, and made the folder when it exits with status 0, before
    its output is decoded and its status checked. *)
Definition _make_output_folder (path : string) : M World unit :=
  w ← get;
  if negb (isdir w path) then
    let status := mkdir_status w path in
    _ ← modify (emit (Mkdir path status));
    _ ← (if bool_decide (status = 0)
         then modify (λ w, set_dirs ({[path]} ∪ dirs w) w)
         else ret tt);
    _ ← lift (decode_ascii (mkdir_output w path));
    if bool_decide (status ≠ 0) then raise (CalledProcessError status)
    else ret tt
  else mret tt.

(** [Motioncorr.__init__] *)
Definition __init__ (project_name : string) (mc2_params : Params)
    (md_in : list md_row) : M World Motioncorr :=
  let _process_list := process_list mc2_params in
  let meta := pd.DataFrame md_in in
  let meta := pd.loc (λ r, bool_decide (md_ts r ∈ _process_list)) meta in
  (* get index of available GPU *)
  use_gpu ← _get_gpu_nvidia_smi;
  (* set output path and GPU index as new columns *)
  gpu0 ← match use_gpu !! 0%nat with
         | Some g => ret g
         | None => raise (IndexError "list index out of range")
         end;
  let meta : pd.frame row :=
    prod_map id (λ r, {| file_paths := md_file_paths r; ts := md_ts r;
                         image_idx := md_image_idx r; angles := md_angles r;
                         output := _set_output_path mc2_params r;
                         gpu := gpu0 |}) <$> meta in
  self ← _check_processed_images
           {| proj_name := project_name; log := []; params := mc2_params;
              _process_list := _process_list; meta := meta; use_gpu := use_gpu;
              no_processes := false; meta_out := []; _missing_specified := [];
              _curr_meta := [] |};
  (* check if output folder exists, create if not *)
  _ ← _make_output_folder (output_path mc2_params);
  mret self.

(** [Motioncorr.update_mc2_metadata] *)
Definition update_mc2_metadata (self : Motioncorr) : M World Motioncorr :=
  w ← get;
  let _to_append := pd.loc (λ r, isfile w (output r)) (meta self) in
  let self := set_meta_out (pd.concat_ignore_index [meta_out self; _to_append]) self in
  let self := set_meta (pd.loc (λ r, negb (isfile w (output r))) (meta self)) self in
  let self := set_curr_meta
                (pd.loc (λ r, negb (isfile w (output r))) (_curr_meta self)) self in
  ret self.

(** [Motioncorr.export_metadata] *)
Definition export_metadata (self : Motioncorr) : M World unit :=
  modify (λ w, emit (Export self) (set_mc2_mdout (Some (meta_out self)) w)).

(** [subprocess.Popen(cmd, stdout=PIPE, stderr=STDOUT)] *)
Definition spawn (cmd : command) : M World command :=
  _ ← modify (emit (Popen cmd)); ret cmd.

(** [process.communicate()[0].decode('UTF-8')]: the process has ended, its
    files are on disk, and both streams come back as one byte string, which
    is then decoded. *)
Definition communicate (process : command) : M World string :=
  w ← get;
  let p := MotionCor2 process (files w) in
  _ ← modify (λ w, emit (Communicate process (returncode p))
                        (set_files (files_after p) w));
  lift (decode_utf8 (out p +:+ err p)).

(** The body of [for process in list(job)]. *)
Definition harvest (process : command) (self : Motioncorr) : M World Motioncorr :=
  text ← communicate process;
  let self := set_log (log self ++ [text])%list self in
  self ← update_mc2_metadata self;
  _ ← export_metadata self;
  ret self.

(** The body of [for job in chunks]: [list(job)] starts every process of
    the chunk, then each is waited for in turn. *)
Definition run_chunk (job : list command) (self : Motioncorr) : M World Motioncorr :=
  processes ← for_each job (λ cmd (started : list command), p ← spawn cmd; ret (started ++ [p])%list) [];
  for_each processes harvest self.

(** One turn of [while len(self._curr_meta) > 0]. *)
Definition run_pass (self : Motioncorr) : M World Motioncorr :=
  let mc_commands := image_tuple <$> pd.rows (_curr_meta self) in
  let size := Z.of_nat (length (use_gpu self)) * jobs_per_gpu (params self) in
  match _yield_chunks mc_commands size with
  | inl e =>
      (* the generator has taken its first job, so that one is started *)
      _ ← for_each (take 1 mc_commands) (λ cmd (_ : unit), _ ← spawn cmd; ret tt) tt;
      raise e
  | inr chunks => for_each chunks run_chunk self
  end.

Fixpoint while_curr_meta (fuel : nat) (self : Motioncorr) : M World Motioncorr :=
  if bool_decide (0 < pd.len (_curr_meta self))%nat then
    match fuel with
    | O => out_of_fuel
    | S fuel' => self ← run_pass self; while_curr_meta fuel' self
    end
  else ret self.

(** [Motioncorr.run_mc2]; [fuel] bounds the turns of each [while] loop. *)
Definition run_mc2 (fuel : nat) (self : Motioncorr) : M World Motioncorr :=
  let ts_list := process_list (params self) in
  for_each ts_list
    (λ curr_ts self,
       let self := set_curr_meta
                     (pd.loc (λ r, bool_decide (ts r = curr_ts)) (meta self)) self in
       while_curr_meta fuel self)
    self.

(** [run()], from the point where the configuration and the master
    metadata have been read. *)
Definition run (fuel : nat) (project_name : string) (mc2_config : Params)
    (master_md : list md_row) : M World unit :=
  mc2_obj ← __init__ project_name mc2_config master_md;
  if negb (no_processes mc2_obj) then
    mc2_obj ← run_mc2 fuel mc2_obj;
    export_metadata mc2_obj
  else ret tt.
End machine.

(** Two values of a float64 key column are the same key of a merge when
    they are equal as floats, so 0.0 and -0.0 are, or both are NaN. *)
Definition is_nan (x : spec_float) : bool :=
  match x with S754_nan => true | _ => false end.
Definition same_angle (x y : spec_float) : bool :=
  SFeqb x y || (is_nan x && is_nan y).
Definition same_key (r r' : Z * spec_float) : bool :=
  bool_decide (r.1 = r'.1) && same_angle r.2 r'.2.

(** [update_yaml]: the tilt-series numbers written to
    [params['System']['process_list']].  [master_md] is the [['ts',
    'angles']] part of <project>_master_md.yaml, [mc2_md] that of the file
    the function opens as [mc2_md_name], when that file exists. *)
Definition update_yaml (master_md : list (Z * spec_float))
    (mc2_md : option (list (Z * spec_float))) : list Z :=
  let unprocessed_images :=
    match mc2_md with
    | Some mc2_md =>
        (* outer merge on (ts, angles), rows marked left_only *)
        List.filter (λ r, negb (existsb (same_key r) mc2_md)) master_md
    | None => master_md
    end in
  pd.unique (pd.sort_values (unprocessed_images.*1)).

End motioncorr.

(** ** align.py *)

Module align.

(** A row of [self._align_images] and [self.meta_out]. *)
Record row := {
  ts : Z;
  stack_output : string;
  align_output : string;
}.

#[global] Instance row_eq_dec : EqDecision row.
Proof. solve_decision. Defined.

(** The entries of [params['System']] the stage reads. *)
Record Params := {
  process_list : list Z;
  output_path : string;
  output_rootname : string;
  output_suffix : string;
}.

Record Align := {
  proj_name : string;
  params : Params;
  basis_folder : string;
  rootname : string;
  suffix : string;
  _align_images : pd.frame row;
  no_processes : bool;
  _process_list : list Z;
  meta_out : pd.frame row;
  _missing_specified : pd.frame row;
  _path_dict : gmap Z string;
  stdout : option string;
}.

Definition set_folders (b r x : string) (self : Align) : Align :=
  {| proj_name := proj_name self; params := params self; basis_folder := b;
     rootname := r; suffix := x; _align_images := _align_images self;
     no_processes := no_processes self; _process_list := _process_list self;
     meta_out := meta_out self; _missing_specified := _missing_specified self;
     _path_dict := _path_dict self; stdout := stdout self |}.
Definition set_align_images (v : pd.frame row) (self : Align) : Align :=
  {| proj_name := proj_name self; params := params self;
     basis_folder := basis_folder self; rootname := rootname self;
     suffix := suffix self; _align_images := v;
     no_processes := no_processes self; _process_list := _process_list self;
     meta_out := meta_out self; _missing_specified := _missing_specified self;
     _path_dict := _path_dict self; stdout := stdout self |}.
Definition set_no_processes (v : bool) (self : Align) : Align :=
  {| proj_name := proj_name self; params := params self;
     basis_folder := basis_folder self; rootname := rootname self;
     suffix := suffix self; _align_images := _align_images self;
     no_processes := v; _process_list := _process_list self;
     meta_out := meta_out self; _missing_specified := _missing_specified self;
     _path_dict := _path_dict self; stdout := stdout self |}.
Definition set_process_list (v : list Z) (self : Align) : Align :=
  {| proj_name := proj_name self; params := params self;
     basis_folder := basis_folder self; rootname := rootname self;
     suffix := suffix self; _align_images := _align_images self;
     no_processes := no_processes self; _process_list := v;
     meta_out := meta_out self; _missing_specified := _missing_specified self;
     _path_dict := _path_dict self; stdout := stdout self |}.
Definition set_meta_out (v : pd.frame row) (self : Align) : Align :=
  {| proj_name := proj_name self; params := params self;
     basis_folder := basis_folder self; rootname := rootname self;
     suffix := suffix self; _align_images := _align_images self;
     no_processes := no_processes self; _process_list := _process_list self;
     meta_out := v; _missing_specified := _missing_specified self;
     _path_dict := _path_dict self; stdout := stdout self |}.
Definition set_missing_specified (v : pd.frame row) (self : Align) : Align :=
  {| proj_name := proj_name self; params := params self;
     basis_folder := basis_folder self; rootname := rootname self;
     suffix := suffix self; _align_images := _align_images self;
     no_processes := no_processes self; _process_list := _process_list self;
     meta_out := meta_out self; _missing_specified := v;
     _path_dict := _path_dict self; stdout := stdout self |}.
Definition set_path_dict (v : gmap Z string) (self : Align) : Align :=
  {| proj_name := proj_name self; params := params self;
     basis_folder := basis_folder self; rootname := rootname self;
     suffix := suffix self; _align_images := _align_images self;
     no_processes := no_processes self; _process_list := _process_list self;
     meta_out := meta_out self; _missing_specified := _missing_specified self;
     _path_dict := v; stdout := stdout self |}.
Definition set_stdout (v : option string) (self : Align) : Align :=
  {| proj_name := proj_name self; params := params self;
     basis_folder := basis_folder self; rootname := rootname self;
     suffix := suffix self; _align_images := _align_images self;
     no_processes := no_processes self; _process_list := _process_list self;
     meta_out := meta_out self; _missing_specified := _missing_specified self;
     _path_dict := _path_dict self; stdout := v |}.

(** The two external programs of the stage, by what fixes their command. *)
Inductive invocation :=
  | Newstack (fileinlist output : string)
  | Batchruntomo (curr_ts : Z).

(** What the run does to the outside, in order: an external program that
    has run, with its exit status and what it wrote, and a write of the
    record. *)
Inductive event :=
  | Run (cmd : invocation) (status : Z) (output : string)
  | Export (self : Align).

Record World := {
  files : gset string;                   (* regular files: [os.path.isfile] *)
  align_mdout : option (pd.frame row);   (* <project>_align_mdout.yaml *)
  logged : list string;
  trace : list event;
}.

Definition set_files (v : gset string) (w : World) : World :=
  {| files := v; align_mdout := align_mdout w; logged := logged w; trace := trace w |}.
Definition set_align_mdout (v : option (pd.frame row)) (w : World) : World :=
  {| files := files w; align_mdout := v; logged := logged w; trace := trace w |}.
Definition emit (e : event) (w : World) : World :=
  {| files := files w; align_mdout := align_mdout w; logged := logged w;
     trace := trace w ++ [e] |}.

Definition isfile (w : World) (x : string) : bool := bool_decide (x ∈ files w).

(** [with open(path, 'w') as f: f.write(...)]; what is written is not kept. *)
Definition write_file (path : string) : M World unit :=
  modify (λ w, set_files ({[path]} ∪ files w) w).

(** Modelled from the spec: [logger.Logger] is not among the sources; a call
    [self.logObj(msg)] produces one log/report line. *)
Definition logObj (msg : string) : M World unit :=
  modify (λ w, {| files := files w; align_mdout := align_mdout w;
                  logged := logged w ++ [msg]; trace := trace w |}).

(** [subprocess.CompletedProcess]; a stream that was not captured is [None]. *)
Record CompletedProcess := {
  cp_returncode : Z;
  cp_stdout : option string;
  cp_stderr : option string;
}.

(** Python truth of [CompletedProcess.stderr]. *)
Definition truthy (x : option string) : bool :=
  match x with
  | None => false
  | Some t => negb (bool_decide (t = EmptyString))
  end.

Section machine.
Context (tool : invocation → gset string → Process).

(** [subprocess.run(cmd, stdout=PIPE, stderr=STDOUT, check=True)], with
    [encoding='ascii'] or without an encoding: the error stream is sent into
    the captured standard output, so the [stderr] attribute of the result
    is [None].  With an encoding the output is decoded as it is read, before
    the exit status is looked at; a non-zero exit status raises. *)
Definition subprocess_run (ascii : bool) (cmd : invocation) : M World CompletedProcess :=
  w ← get;
  let p := tool cmd (files w) in
  _ ← modify (λ w, emit (Run cmd (returncode p) (out p +:+ err p))
                        (set_files (files_after p) w));
  captured ← (if ascii then lift (decode_ascii (out p +:+ err p))
              else ret (out p +:+ err p));
  if bool_decide (returncode p ≠ 0)
  then raise (CalledProcessError (returncode p))
  else ret {| cp_returncode := returncode p;
              cp_stdout := Some captured;
              cp_stderr := None |}.

Definition subfolder_name (self : Align) (curr_ts : Z) : string :=
  rootname self +:+ "_" +:+ format_int 2 curr_ts +:+ suffix self.

(** [Align._get_internal_metadata] *)
Definition _get_internal_metadata (self : Align) : Align :=
  let self :=
    set_folders (strip_trailing "/" (output_path (params self)))
                (strip_trailing "_" (output_rootname (params self)))
                (output_suffix (params self)) self in
  set_align_images
    (pd.concat_ignore_index
       (pd.DataFrame [] ::
        ((λ curr_ts,
            pd.DataFrame
              [ {| ts := curr_ts;
                   stack_output := basis_folder self +:+ "/" +:+ subfolder_name self curr_ts
                                   +:+ "/" +:+ subfolder_name self curr_ts +:+ ".st";
                   align_output := basis_folder self +:+ "/" +:+ subfolder_name self curr_ts
                                   +:+ "/" +:+ subfolder_name self curr_ts +:+ "_ali.mrc" |} ])
           <$> process_list (params self))))
    self.

(** [Align._check_aligned_images] *)
Definition _check_aligned_images (self : Align) : M World Align :=
  w ← get;
  let self := set_meta_out (default [] (align_mdout w)) self in
  let self := set_meta_out (pd.drop_duplicates (meta_out self)) self in
  self ←
    (if bool_decide (0 < pd.len (meta_out self))%nat then
       let _missing := pd.loc (λ r, negb (isfile w (align_output r))) (meta_out self) in
       let self :=
         set_missing_specified
           (pd.concat_ignore_index
              (pd.DataFrame [] ::
               ((λ curr_ts, pd.loc (λ r, bool_decide (ts r = curr_ts)) _missing)
                  <$> process_list (params self)))) self in
       let _merged :=
         pd.merge_left_only (pd.rows (meta_out self))
                            (pd.rows (_missing_specified self)) in
       kept ← lift (pd.getitem_bool (meta_out self) _merged);
       let self := set_meta_out kept self in
       _ ← (if bool_decide (0 < pd.len (_missing_specified self))%nat
            then logObj (missing_message (pd.len (_missing_specified self)))
            else ret tt);
       ret self
     else ret self);
  (* drop the items of the input metadata that are in the output record *)
  let in_record (r : row) : bool :=
    bool_decide (align_output r ∈ align_output <$> pd.rows (meta_out self)) in
  let _ignored := pd.loc in_record (_align_images self) in
  self ←
    (if bool_decide (0 < pd.len _ignored)%nat
        && bool_decide (pd.len _ignored < pd.len (_align_images self))%nat
     then
       _ ← logObj (omitted_message (pd.len _ignored));
       ret self
     else if bool_decide (pd.len _ignored = pd.len (_align_images self)) then
       _ ← logObj all_processed_message;
       ret (set_no_processes true self)
     else ret self);
  let _merged :=
    pd.merge_left_only (pd.rows (_align_images self)) (pd.rows _ignored) in
  remaining ← lift (pd.getitem_bool (_align_images self) _merged);
  let self := set_align_images remaining self in
  ret (set_process_list
         (pd.unique (pd.sort_values (ts <$> pd.rows (_align_images self)))) self).

(** [Align.__init__]; the motion-correction metadata [md_in] only feeds the
    text of the files written for the tools and is not kept. *)
Definition __init__ (project_name : string) (params_in : Params) : M World Align :=
  let self :=
    {| proj_name := project_name; params := params_in;
       basis_folder := EmptyString; rootname := EmptyString; suffix := EmptyString;
       _align_images := []; no_processes := false; _process_list := [];
       meta_out := []; _missing_specified := []; _path_dict := ∅;
       stdout := None |} in
  let self := _get_internal_metadata self in
  let self := set_no_processes false self in
  let self := set_process_list (process_list (params self)) self in
  _check_aligned_images self.

(** [Align.create_stack_folders]; directories are not regular files. *)
Definition create_stack_folders (self : Align) : Align :=
  let basis := strip_one_trailing "/" (output_path (params self)) in
  let self :=
    set_folders basis (strip_trailing "_" (output_rootname (params self)))
                (output_suffix (params self)) self in
  foldl (λ self curr_ts,
           set_path_dict
             (<[curr_ts := basis_folder self +:+ "/" +:+ subfolder_name self curr_ts]>
                (_path_dict self)) self)
        (set_path_dict ∅ self) (_process_list self).

Definition path_of (self : Align) (curr_ts : Z) : M World string :=
  match _path_dict self !! curr_ts with
  | Some p => ret p
  | None => raise (KeyError (pretty curr_ts))
  end.

(** [Align.create_rawtlt] *)
Definition create_rawtlt (self : Align) : M World unit :=
  for_each (_process_list self)
    (λ curr_ts (_ : unit),
       folder ← path_of self curr_ts;
       write_file (folder +:+ "/" +:+ output_rootname (params self) +:+ "_"
                   +:+ format_int 2 curr_ts +:+ output_suffix (params self)
                   +:+ ".rawtlt"))
    tt.

(** [Align.update_align_metadata] *)
Definition update_align_metadata (ext : bool) (self : Align) : M World Align :=
  w ← get;
  let self := if ext then set_meta_out (_align_images self) self else self in
  let _to_append := pd.loc (λ r, isfile w (align_output r)) (_align_images self) in
  let self := set_meta_out (pd.concat_ignore_index [meta_out self; _to_append]) self in
  let self := set_align_images
                (pd.loc (λ r, negb (isfile w (align_output r))) (_align_images self))
                self in
  (* sometimes data might be duplicated (unlikely): drop the duplicates *)
  ret (set_meta_out (pd.drop_duplicates (meta_out self)) self).

(** [Align.export_metadata] *)
Definition export_metadata (self : Align) : M World unit :=
  modify (λ w, emit (Export self) (set_align_mdout (Some (meta_out self)) w)).

(** The body of the loop of [Align.create_stack]. *)
Definition create_stack_for (curr_ts : Z) (self : Align) : M World Align :=
  stack_file ←
    match pd.rows (pd.loc (λ r, bool_decide (ts r = curr_ts)) (_align_images self))
          !! 0%nat with
    | Some r => ret (stack_output r)
    | None => raise (IndexError "index 0 is out of bounds for axis 0 with size 0")
    end;
  folder ← path_of self curr_ts;
  let _filename_fileinlist :=
    folder +:+ "/" +:+ output_rootname (params self) +:+ "_"
    +:+ format_int 2 curr_ts +:+ output_suffix (params self) +:+ "_sources.txt" in
  _ ← write_file _filename_fileinlist;
  run_newstack ← subprocess_run false (Newstack _filename_fileinlist stack_file);
  if truthy (cp_stderr run_newstack) then
    raise (ValueError ("newstack: An error has occurred ("
                       +:+ pretty (cp_returncode run_newstack)
                       +:+ ") on stack" +:+ pretty curr_ts +:+ "."))
  else
    let self := set_stdout (cp_stdout run_newstack) self in
    self ← update_align_metadata false self;
    _ ← export_metadata self;
    ret self.

(** [Align.create_stack] *)
Definition create_stack (self : Align) : M World Align :=
  for_each (_process_list self) create_stack_for self.

(** The body of the loop of [Align.align_stack]. *)
Definition align_stack_for (ext : bool) (curr_ts : Z) (self : Align) : M World Align :=
  batchruntomo ← subprocess_run true (Batchruntomo curr_ts);
  if truthy (cp_stderr batchruntomo) then
    raise (ValueError ("Batchtomo: An error has occurred ("
                       +:+ pretty (cp_returncode batchruntomo)
                       +:+ ") on stack" +:+ pretty curr_ts +:+ "."))
  else
    let self := set_stdout (cp_stdout batchruntomo) self in
    self ← update_align_metadata ext self;
    _ ← export_metadata self;
    ret self.

(** [Align.align_stack] *)
Definition align_stack (ext : bool) (self : Align) : M World Align :=
  _ ← write_file "./align.adoc";
  for_each (_process_list self) (align_stack_for ext) self.

(** [run(newstack, do_align, ext)], from the point where the configuration
    has been read. *)
Definition run (newstack do_align ext : bool) (project_name : string)
    (align_config : Params) : M World unit :=
  align_obj ← __init__ project_name align_config;
  if negb (no_processes align_obj) then
    align_obj ←
      (if newstack then
         let align_obj := create_stack_folders align_obj in
         _ ← create_rawtlt align_obj;
         create_stack align_obj
       else ret align_obj);
    if do_align then
      _ ← align_stack ext align_obj; ret tt
    else ret tt
  else ret tt.
End machine.

(** [update_yaml]: the tilt-series numbers written to
    [params['System']['process_list']] of the alignment configuration.
    [mc2_md] is the [ts] column of <project>_mc2_mdout.yaml, [align_md] that
    of <project>_align_mdout.yaml when that file exists. *)
Definition update_yaml (mc2_md : list Z) (align_md : option (list Z)) : list Z :=
  let unprocessed_images :=
    match align_md with
    | Some align_md =>
        (* outer merge on ts, rows marked left_only *)
        List.filter (λ t, negb (bool_decide (t ∈ align_md))) mc2_md
    | None => mc2_md
    end in
  pd.unique (pd.sort_values unprocessed_images).

End align.

(** ** Vocabulary of the statements *)

(** A Hoare triple for the effect monad: from a state satisfying [P], a
    normal return satisfies [Q]; a raise or an exhausted loop budget leaves
    a state satisfying [E]. *)
Definition hoare {S A} (P : S → Prop) (m : M S A) (Q : A → S → Prop)
    (E : option Exception → S → Prop) : Prop :=
  ∀ s, P s →
    match m s with
    | (Return a, s') => Q a s'
    | (Raise e, s') => E (Some e) s'
    | (OutOfFuel, s') => E None s'
    end.

Module motioncorr_spec.
Import motioncorr.

(** PendingSet and DoneTable share no output path. *)
Definition disjoint (self : Motioncorr) : Prop :=
  ∀ r, r ∈ pd.rows (meta self) →
       output r ∉ output <$> pd.rows (meta_out self).

(** Every harvested process is followed at once by a write of the record. *)
Fixpoint checkpoints_ok (tr : list event) : Prop :=
  match tr with
  | [] => True
  | Communicate _ _ :: tr' =>
      match tr' with
      | Export _ :: tr'' => checkpoints_ok tr''
      | _ => False
      end
  | _ :: tr' => checkpoints_ok tr'
  end.

(** The object as it was at the last write of the record, if any. *)
Definition last_export (tr : list event) : option Motioncorr :=
  foldl (λ acc e, match e with Export s => Some s | _ => acc end) None tr.

(** The record on disk is what the last write put there. *)
Definition record_follows (w0 : World) (new : list event) (w : World) : Prop :=
  mc2_mdout w = match last_export new with
                | Some s => Some (meta_out s)
                | None => mc2_mdout w0
                end.

(** What is left of an invariant of object and world when the run stops
    on an exception or on its budget: the world is as some object left it. *)
Definition lost (I : Motioncorr → World → Prop)
  : option Exception → World → Prop :=
  λ _ w, ∃ self, I self w.

(** The concurrency bound C of the dispatch. *)
Definition bound (self : Motioncorr) : Z :=
  Z.of_nat (length (use_gpu self)) * jobs_per_gpu (params self).


(** The processes of a trace, in the order in which they are started and
    waited for. *)
Inductive step :=
  | Start (c : command)
  | Wait (c : command).

Definition steps (tr : list event) : list step :=
  omap (λ e, match e with
             | Popen c => Some (Start c)
             | Communicate c _ => Some (Wait c)
             | _ => None
             end) tr.

(** A chunk is started as a whole, then waited for process by process; the
    chunks of a pass follow one another. *)
Definition chunk_steps (chunk : list command) : list step :=
  (Start <$> chunk) ++ (Wait <$> chunk).
Definition pass_steps (chunks : list (list command)) : list step :=
  mjoin (chunk_steps <$> chunks).

(** A run whose new events are [new] does what [expected] says, all of it
    when it returns and a first part of it when it stops early. *)
Definition follows {A} (expected : list step) (new : list event)
    (r : Result A) : Prop :=
  steps new `prefix_of` expected
  ∧ ∀ a, r = Return a → steps new = expected.

Definition runs {A} (expected : list step) (w : World)
    (out : Result A * World) : Prop :=
  ∃ new, trace out.2 = trace w ++ new ∧ follows expected new out.1.

(** The commands of one pass over the series [curr_ts]: those of rows of
    that series in the pending table, at least one. *)
Definition pass_of (self : Motioncorr) (commands : list command) : Prop :=
  commands ≠ []
  ∧ ∃ curr_ts, curr_ts ∈ process_list (params self)
      ∧ ∀ c, c ∈ commands →
             ∃ r, r ∈ pd.rows (meta self) ∧ ts r = curr_ts ∧ c = image_tuple r.

(** The processes waited for, in order. *)
Definition waited (tr : list event) : list command :=
  omap (λ e, match e with Communicate c _ => Some c | _ => None end) tr.

(** Objects with the same tables and log, worlds with the same files and
    the same record. *)
Definition same_tables (s1 s2 : Motioncorr) : Prop :=
  meta s1 = meta s2 ∧ meta_out s1 = meta_out s2 ∧ log s1 = log s2.
Definition same_disk (w1 w2 : World) : Prop :=
  files w1 = files w2 ∧ mc2_mdout w1 = mc2_mdout w2.

(** The outcome [r] of a dispatch is that of [h], the harvest one after
    another of the processes it waited for: the same files and record,
    the same tables when it returns, the same failure when the output of a
    process cannot be decoded. *)
Definition as_harvested (r h : Result Motioncorr * World) : Prop :=
  same_disk r.2 h.2
  ∧ match r.1 with
    | Return s => ∃ s', h.1 = Return s' ∧ same_tables s s'
    | Raise (UnicodeDecodeError encoding) => h.1 = Raise (UnicodeDecodeError encoding)
    | _ => ∃ s', h.1 = Return s'
    end.

(** Every harvested process is followed at once by a write of the record,
    unless it is the last thing a run does before it fails on the output of
    that process. *)
Definition checkpointed {A} (new : list event) (r : Result A) : Prop :=
  checkpoints_ok new
  ∨ ∃ pre c status,
      new = pre ++ [Communicate c status] ∧ checkpoints_ok pre
      ∧ r = Raise (UnicodeDecodeError "utf-8").


(** During the loop over one tilt-series, [_curr_meta] is the part of the
    pending table that belongs to the series. *)
Definition current (curr_ts : Z) (self : Motioncorr) : Prop :=
  _curr_meta self = pd.loc (λ r, bool_decide (ts r = curr_ts)) (meta self).

(** Round-robin over the free devices, as the specification words it. *)
Definition round_robin (devices : list string) (n : nat) : list (option string) :=
  (λ i, devices !! (i `mod` length devices)%nat) <$> seq 0 n.

End motioncorr_spec.

Module align_spec.
Import align.


(** The object as it was at the last write of the record, if any. *)
Definition last_export (tr : list event) : option Align :=
  foldl (λ acc e, match e with Export s => Some s | _ => acc end) None tr.

(** The record on disk is what the last write put there. *)
Definition record_follows (w0 : World) (new : list event) (w : World) : Prop :=
  align_mdout w = match last_export new with
                  | Some s => Some (meta_out s)
                  | None => align_mdout w0
                  end.

End align_spec.

(** ** Concrete runs

    Small projects on which the statements are exercised. *)

Module example.
Import motioncorr.

(** A fresh project directory on a disk where [mkdir] succeeds. *)
Definition empty_world : World :=
  {| files := ∅; dirs := ∅; mkdir_status := λ _, 0;
     mkdir_output := λ _, EmptyString; mc2_mdout := None;
     logged := []; trace := [] |}.

(** Two devices, none of them busy. *)
Definition two_free_gpus : Exception + list (string * string) * list string :=
  inr ([("0", "GPU-aaaa"); ("1", "GPU-bbbb")], ["gpu_uuid"]).
Definition one_free_gpu : Exception + list (string * string) * list string :=
  inr ([("0", "GPU-aaaa"); ("1", "GPU-bbbb")], ["gpu_uuid"; "GPU-bbbb"]).

Definition mc2_params (scope : list Z) : Params :=
  {| process_list := scope; output_path := "mc2/"; output_prefix := "ts";
     jobs_per_gpu := 1 |}.

Definition image (path : string) (series : Z) (idx : Z) (angle : string) : md_row :=
  {| md_file_paths := path; md_ts := series; md_image_idx := idx;
     md_angles := angle |}.

(** The floats 0.0, -0.0 and 3.0 as tilt angles. *)
Definition zero : spec_float := S754_zero false.
Definition minus_zero : spec_float := S754_zero true.
Definition three : spec_float := S754_finite false 6755399441055744 (-51).

Definition three_images : list md_row :=
  [image "raw/a.tif" 1 1 "0.0"; image "raw/b.tif" 1 2 "3.0";
   image "raw/c.tif" 2 1 "0.0"].


(** Two exposures of series 1 at the same tilt angle. *)
Definition repeated_angle : list md_row :=
  [image "raw/a.tif" 1 1 "0.0"; image "raw/b.tif" 1 2 "0.0"].


Definition done_row (path : string) (series idx : Z) (angle out_file : string) : row :=
  {| file_paths := path; ts := series; image_idx := idx; angles := angle;
     output := out_file; gpu := "0" |}.


(** A record of three images; only the output of the second (series 1)
    has been deleted. *)
Definition one_missing_world : World :=
  {| files := {["mc2/ts_001_0.0.mrc"; "mc2/ts_002_0.0.mrc"]};
     dirs := {["mc2/"]}; mkdir_status := λ _, 0;
     mkdir_output := λ _, EmptyString;
     mc2_mdout :=
       Some (pd.DataFrame
               [done_row "raw/a.tif" 1 1 "0.0" "mc2/ts_001_0.0.mrc";
                done_row "raw/b.tif" 1 2 "3.0" "mc2/ts_001_3.0.mrc";
                done_row "raw/c.tif" 2 1 "0.0" "mc2/ts_002_0.0.mrc"]);
     logged := []; trace := [] |}.


(** A tool that always writes its output and exits with status 0. *)
Definition reliable (c : command) (fs : gset string) : Process :=
  {| returncode := 0; out := "done"; err := EmptyString;
     files_after := {[out_path c]} ∪ fs |}.


(** A trace with the objects of its [Export] events reduced to the output
    paths of their done table. *)
Inductive observation :=
  | SawNvidiaSmi
  | SawMkdir (path : string)
  | SawPopen (input : string)
  | SawCommunicate (input : string) (status : Z)
  | SawExport (done : list string).

Definition observe (e : event) : observation :=
  match e with
  | NvidiaSmi => SawNvidiaSmi
  | Mkdir path _ => SawMkdir path
  | Popen c => SawPopen (in_path c)
  | Communicate c status => SawCommunicate (in_path c) status
  | Export s => SawExport (output <$> pd.rows (meta_out s))
  end.

End example.

Module align_example.
Import align.

Definition align_params (scope : list Z) : Params :=
  {| process_list := scope; output_path := "stacks/"; output_rootname := "ts";
     output_suffix := EmptyString |}.

(** A record whose two rows share both output paths and differ in the
    series id only, with the aligned stack on disk: series 123 written with
    an empty suffix, series 12 written with the suffix 3. *)
Definition shared_path_world : World :=
  {| files := {["stacks/ts_123/ts_123_ali.mrc"]};
     align_mdout :=
       Some (pd.DataFrame
               [ {| ts := 12; stack_output := "stacks/ts_123/ts_123.st";
                    align_output := "stacks/ts_123/ts_123_ali.mrc" |};
                 {| ts := 123; stack_output := "stacks/ts_123/ts_123.st";
                    align_output := "stacks/ts_123/ts_123_ali.mrc" |} ]);
     logged := []; trace := [] |}.

(** A record of two series; the aligned stack of series 2 has been deleted. *)
Definition one_missing_world : World :=
  {| files := {["stacks/ts_01/ts_01_ali.mrc"]};
     align_mdout :=
       Some (pd.DataFrame
               [ {| ts := 1; stack_output := "stacks/ts_01/ts_01.st";
                    align_output := "stacks/ts_01/ts_01_ali.mrc" |};
                 {| ts := 2; stack_output := "stacks/ts_02/ts_02.st";
                    align_output := "stacks/ts_02/ts_02_ali.mrc" |} ]);
     logged := []; trace := [] |}.

(** A newstack that fails with exit status 2 on the stack of series 2 and
    writes every other stack. *)
Definition failing_newstack (c : invocation) (fs : gset string) : Process :=
  match c with
  | Newstack _ output =>
      if bool_decide (output = "stacks/ts_02/ts_02.st")
      then {| returncode := 2; out := "ERROR: NEWSTACK"; err := EmptyString;
              files_after := fs |}
      else {| returncode := 0; out := "done"; err := EmptyString;
              files_after := {[output]} ∪ fs |}
  | Batchruntomo _ =>
      {| returncode := 0; out := "done"; err := EmptyString; files_after := fs |}
  end.

(** A batchruntomo that exits with status 1 after writing a message that
    is not ASCII (its first byte is 233). *)
Definition garbled_batchruntomo (c : invocation) (fs : gset string) : Process :=
  match c with
  | Batchruntomo _ =>
      {| returncode := 1; out := String "233"%char "chec"; err := EmptyString;
         files_after := fs |}
  | Newstack _ output =>
      {| returncode := 0; out := "done"; err := EmptyString;
         files_after := {[output]} ∪ fs |}
  end.

(** A trace with its commands reduced to the file or series they work on
    and the objects of its [Export] events to the aligned stacks of their
    done table. *)
Definition observe (e : event) : string * Z + list string :=
  match e with
  | Run (Newstack _ output) status _ => inl (output, status)
  | Run (Batchruntomo curr_ts) status _ => inl (pretty curr_ts, status)
  | Export s => inr (align_output <$> pd.rows (meta_out s))
  end.

End align_example.

(** * Properties *)

(** ** Tables *)

Section frame_facts.
Context {R : Type} `{EqDecision R}.
Implicit Types (df : pd.frame R) (l : list R).

Lemma rows_DataFrame l : pd.rows (pd.DataFrame l) = l.
Proof.
  unfold pd.rows, pd.DataFrame. apply snd_zip. rewrite length_seq. lia.
Qed.


Lemma len_rows df : pd.len df = length (pd.rows df).
Proof. unfold pd.len, pd.rows. by rewrite length_fmap. Qed.

Lemma rows_loc f df : pd.rows (pd.loc f df) = List.filter f (pd.rows df).
Proof.
  unfold pd.rows, pd.loc. induction df as [|[i r] df IH]; [done|].
  cbn. destruct (f r); cbn; by rewrite IH.
Qed.

Lemma rows_concat_ignore_index (dfs : list (pd.frame R)) :
  pd.rows (pd.concat_ignore_index dfs) = mjoin (pd.rows <$> dfs).
Proof. apply rows_DataFrame. Qed.

Lemma elem_of_filter_bool (f : R → bool) l x :
  x ∈ List.filter f l ↔ x ∈ l ∧ f x = true.
Proof. rewrite !list_elem_of_In. apply filter_In. Qed.







(** Whatever the mask, [df[mask]] keeps rows of [df] only. *)
Lemma getitem_bool_sublist df mask kept :
  pd.getitem_bool df mask = inr kept → sublist (pd.rows kept) (pd.rows df).
Proof.
  unfold pd.getitem_bool. destruct (forallb _ _); [|done]. intros [= <-].
  unfold pd.rows.
  induction df as [|p df IH]; cbn; [constructor|].
  destruct (default false _); cbn; by constructor.
Qed.

Lemma drop_duplicates_from_spec seen df :
  NoDup (pd.rows (pd.drop_duplicates_from seen df))
  ∧ (∀ r, r ∈ pd.rows (pd.drop_duplicates_from seen df) ↔ r ∈ pd.rows df ∧ r ∉ seen).
Proof.
  unfold pd.rows. revert seen. induction df as [|[i x] df IH]; intros seen; cbn.
  - split; [constructor|]. intros r. rewrite elem_of_nil. tauto.
  - case_bool_decide as Hx; cbn.
    + destruct (IH seen) as [Hnd Hin]. split; [done|]. intros r.
      rewrite Hin, elem_of_cons. split; [tauto|]. intros [[->|?] ?]; tauto.
    + destruct (IH (x :: seen)) as [Hnd Hin]. split.
      * constructor; [|done]. rewrite Hin, elem_of_cons. tauto.
      * intros r. rewrite !elem_of_cons, Hin, elem_of_cons.
        destruct (decide (r = x)) as [->|]; tauto.
Qed.

Lemma NoDup_drop_duplicates df : NoDup (pd.rows (pd.drop_duplicates df)).
Proof. apply drop_duplicates_from_spec. Qed.

Lemma elem_of_drop_duplicates df r :
  r ∈ pd.rows (pd.drop_duplicates df) ↔ r ∈ pd.rows df.
Proof.
  unfold pd.drop_duplicates.
  rewrite (proj2 (drop_duplicates_from_spec [] df)), elem_of_nil. tauto.
Qed.


End frame_facts.

(** ** main.get_proj_name *)

Lemma find_from_spec (i : Z) (c : ascii) (s : string) :
  0 ≤ i → find_from i c s ≠ -1 ↔ c ∈ String.list_ascii_of_string s.
Proof.
  revert i. induction s as [|a s IH]; intros i Hi; cbn.
  - rewrite elem_of_nil. tauto.
  - rewrite elem_of_cons. case_bool_decide as Ha.
    + split; [by left|lia].
    + rewrite IH by lia. split; [tauto|]. intros [->|?]; [done|tauto].
Qed.

Lemma find_spec (s : string) (c : ascii) :
  find s c ≠ -1 ↔ c ∈ String.list_ascii_of_string s.
Proof. by apply find_from_spec. Qed.

Lemma check_validity_spec (project_name : string) (chars : list ascii) :
  main.check_validity project_name chars =
    match List.filter (λ c, bool_decide (c ∈ String.list_ascii_of_string project_name)) chars with
    | [] => inr project_name
    | char :: _ => inl (ValueError (main.illegal_character_message char))
    end.
Proof.
  induction chars as [|c chars IH]; cbn; [done|].
  destruct (decide (c ∈ String.list_ascii_of_string project_name)) as [Hc|Hc].
  - rewrite (bool_decide_eq_true_2 (find _ _ ≠ _)) by by apply find_spec.
    by rewrite (bool_decide_eq_true_2 (c ∈ _)).
  - rewrite (bool_decide_eq_false_2 (find _ _ ≠ _)) by by rewrite find_spec.
    by rewrite (bool_decide_eq_false_2 (c ∈ _)).
Qed.

(** C10. Given a project name on the command line, [get_proj_name] returns
    it unchanged when none of the characters < > : / \ | ? * or the double
    quote occurs in it;
    otherwise it raises a [ValueError] whose message names an offending
    character, the first of that list that occurs in the name. *)
Theorem get_proj_name_checks_illegal_characters (argv0 project_name : string)
    (rest : list string) :
  main.get_proj_name (argv0 :: project_name :: rest) =
    match List.filter (λ c, bool_decide (c ∈ String.list_ascii_of_string project_name))
                      main.illegal_characters with
    | [] => inr project_name
    | char :: _ => inl (ValueError (main.illegal_character_message char))
    end.
Proof. unfold main.get_proj_name. cbn [lookup list_lookup]. apply check_validity_spec. Qed.

(** ** Chunking *)

Section chunks.
Context {A : Type}.
Implicit Types (l : list A) (n : nat).

Lemma chunks_of_join n l : mjoin (motioncorr.chunks_of n l) = l.
Proof.
  funelim (motioncorr.chunks_of n l); simp chunks_of; [done|].
  change (mjoin (?x :: ?ls)) with (x ++ mjoin ls).
  rewrite H. cbn. by rewrite take_drop.
Qed.



End chunks.

(** With a bound C in the range [itertools.islice] accepts,
    [_yield_chunks] cuts a sequence of N jobs into consecutive chunks (their
    concatenation is the sequence), exactly ceil(N/C) of them, every one of C
    jobs except the last, which has N mod C jobs when C does not divide N
    and C jobs when it does. *)
Lemma yield_chunks_in_range {A} (jobs : list A) (C : Z) :
  0 < C ≤ motioncorr.sys_maxsize + 1 →
  motioncorr._yield_chunks jobs C
  = inr (motioncorr.chunks_of (Z.to_nat (C - 1)) jobs).
Proof.
  intros HC. unfold motioncorr._yield_chunks. destruct jobs; [by simp chunks_of|].
  rewrite (bool_decide_eq_false_2 (C - 1 < 0)) by lia.
  by rewrite (bool_decide_eq_false_2 (motioncorr.sys_maxsize < C - 1)) by lia.
Qed.

Lemma yield_chunks_out_of_range {A} (jobs : list A) (C : Z) e :
  motioncorr._yield_chunks jobs C = inl e →
  jobs ≠ [] ∧ ¬ (0 < C ≤ motioncorr.sys_maxsize + 1) ∧ ∃ msg, e = ValueError msg.
Proof.
  unfold motioncorr._yield_chunks. destruct jobs; [done|].
  destruct (_ || _) eqn:H; [|done]. intros [= <-].
  split; [done|]. split; [|by eexists].
  apply orb_true_iff in H as [H|H]; apply bool_decide_eq_true in H; lia.
Qed.

Lemma yield_chunks_join {A} (jobs : list A) (C : Z) chunks :
  motioncorr._yield_chunks jobs C = inr chunks → mjoin chunks = jobs.
Proof.
  unfold motioncorr._yield_chunks. destruct jobs; [by intros [= <-]|].
  destruct (_ || _); [done|]. intros [= <-]. apply chunks_of_join.
Qed.


(** ** Scope derivation: [update_yaml] *)

Lemma unique_from_spec (seen l : list Z) :
  StronglySorted Z.le l →
  StronglySorted Z.lt (pd.unique_from seen l)
  ∧ ∀ x, x ∈ pd.unique_from seen l ↔ x ∈ l ∧ x ∉ seen.
Proof.
  revert seen. induction l as [|a l IH]; intros seen Hs; cbn.
  - split; [constructor|]. intros x. rewrite elem_of_nil. tauto.
  - apply StronglySorted_inv in Hs as [Hl Ha].
    case_bool_decide as Hseen.
    + destruct (IH seen Hl) as [Hsorted Hin]. split; [done|].
      intros x. rewrite Hin, elem_of_cons. split; [tauto|].
      intros [[->|?] ?]; tauto.
    + destruct (IH (a :: seen) Hl) as [Hsorted Hin]. split.
      * constructor; [done|]. apply Forall_forall. intros x Hx.
        apply Hin in Hx as [Hx Hn]. apply not_elem_of_cons in Hn as [Hne _].
        rewrite Forall_forall in Ha. specialize (Ha x Hx). lia.
      * intros x. rewrite !elem_of_cons, Hin, elem_of_cons.
        destruct (decide (x = a)) as [->|]; tauto.
Qed.

(** [sort_values(ascending=True).unique()] is strictly ascending and has the
    elements of the column. *)
Lemma unique_sort_values_spec (l : list Z) :
  StronglySorted Z.lt (pd.unique (pd.sort_values l))
  ∧ ∀ x, x ∈ pd.unique (pd.sort_values l) ↔ x ∈ l.
Proof.
  unfold pd.unique, pd.sort_values.
  destruct (unique_from_spec [] (merge_sort Z.le l)) as [Hs Hin].
  { apply StronglySorted_merge_sort; apply _. }
  split; [done|]. intros x. rewrite Hin, merge_sort_Permutation, elem_of_nil. tauto.
Qed.

Lemma align_update_yaml_spec (mc2_md : list Z) (align_md : option (list Z)) :
  StronglySorted Z.lt (align.update_yaml mc2_md align_md)
  ∧ ∀ t, t ∈ align.update_yaml mc2_md align_md
         ↔ t ∈ mc2_md ∧ t ∉ default [] align_md.
Proof.
  unfold align.update_yaml.
  set (u := match align_md with Some _ => _ | None => _ end).
  destruct (unique_sort_values_spec u) as [Hs Hin]. split; [done|].
  intros t. rewrite Hin. subst u. destruct align_md as [a|]; cbn.
  - rewrite list_elem_of_In, filter_In, <- list_elem_of_In, negb_true_iff,
      bool_decide_eq_false. tauto.
  - rewrite elem_of_nil. tauto.
Qed.

Lemma motioncorr_update_yaml_spec (master_md : list (Z * spec_float))
    (mc2_md : option (list (Z * spec_float))) :
  StronglySorted Z.lt (motioncorr.update_yaml master_md mc2_md)
  ∧ ∀ t, t ∈ motioncorr.update_yaml master_md mc2_md
         ↔ ∃ angle, (t, angle) ∈ master_md
                    ∧ ∀ angle', (t, angle') ∈ default [] mc2_md →
                                motioncorr.same_angle angle angle' = false.
Proof.
  unfold motioncorr.update_yaml.
  set (u := match mc2_md with Some _ => _ | None => _ end).
  destruct (unique_sort_values_spec (u.*1)) as [Hs Hin]. split; [done|].
  intros t. rewrite Hin, list_elem_of_fmap. subst u. split.
  - intros [[t' angle] [-> Hr]]. exists angle. cbn. destruct mc2_md as [m|]; cbn.
    + apply list_elem_of_In, filter_In in Hr as [Hr Hn].
      split; [by apply list_elem_of_In|]. intros angle' Hin'.
      apply negb_true_iff in Hn.
      destruct (motioncorr.same_angle angle angle') eqn:Hsame; [|done].
      rewrite <- Hn. symmetry. apply existsb_exists. exists (t', angle').
      split; [by apply list_elem_of_In|].
      unfold motioncorr.same_key. cbn. by rewrite bool_decide_eq_true_2, Hsame.
    + split; [done|]. intros angle' Hin'. by apply elem_of_nil in Hin'.
  - intros (angle & Hr & Hn). exists (t, angle). split; [done|].
    destruct mc2_md as [m|]; cbn in *; [|done].
    apply list_elem_of_In, filter_In. split; [by apply list_elem_of_In|].
    apply negb_true_iff. destruct (existsb _ m) eqn:Hex; [|done].
    apply existsb_exists in Hex as ([t' angle'] & Hin' & Hkey).
    unfold motioncorr.same_key in Hkey. cbn in Hkey.
    apply andb_true_iff in Hkey as [Ht Hsame]. apply bool_decide_eq_true in Ht.
    subst t'. apply list_elem_of_In in Hin'. by rewrite (Hn _ Hin') in Hsame.
Qed.

(** C9, as the code has it.  The process list written for the alignment
    stage is exactly the series ids of the motion-correction record that are
    absent from the alignment record (all of them when there is no alignment
    record).  The motion-correction stage compares (series id, tilt angle)
    rows instead, the angles as floats: its process list holds the series
    ids with at least one row of the master metadata for which the earlier
    table it reads, when there is one, has no row of the same series and
    the same angle.  Both lists are strictly ascending, hence sorted and
    free of duplicates. *)
Theorem update_yaml_process_list :
  (∀ (mc2_md : list Z) (align_md : option (list Z)),
     StronglySorted Z.lt (align.update_yaml mc2_md align_md)
     ∧ ∀ t, t ∈ align.update_yaml mc2_md align_md
            ↔ t ∈ mc2_md ∧ t ∉ default [] align_md)
  ∧ (∀ (master_md : list (Z * spec_float)) (mc2_md : option (list (Z * spec_float))),
       StronglySorted Z.lt (motioncorr.update_yaml master_md mc2_md)
       ∧ ∀ t, t ∈ motioncorr.update_yaml master_md mc2_md
              ↔ ∃ angle, (t, angle) ∈ master_md
                         ∧ ∀ angle', (t, angle') ∈ default [] mc2_md →
                                     motioncorr.same_angle angle angle' = false).
Proof.
  split; [apply align_update_yaml_spec | apply motioncorr_update_yaml_spec].
Qed.

(** C9 as stated fails for the motion-correction stage: series 1 has two
    images, at 0 and at 3 degrees, one of them already in the stage's own
    table, and series 1 is still put on the process list. *)
Lemma update_yaml_keeps_partly_done_series :
  let master_md := [(1, example.zero); (1, example.three)] in
  let own := [(1, example.zero)] in
  1 ∈ own.*1 ∧ motioncorr.update_yaml master_md (Some own) = [1].
Proof. split; [by left | reflexivity]. Qed.

(** The angles are compared as floats: an image at -0.0 degrees is found in
    a table that has it at 0.0 degrees. *)
Example update_yaml_signed_zero :
  motioncorr.update_yaml [(1, example.minus_zero)] (Some [(1, example.zero)]) = [].
Proof. reflexivity. Qed.

(** ** Reasoning about the effect monad *)

Section hoare_rules.
Context {S : Type}.
Implicit Types (E : option Exception → S → Prop).

Lemma hoare_ret {A} (P : S → Prop) (a : A) (Q : A → S → Prop) E :
  (∀ s, P s → Q a s) → hoare P (mret a) Q E.
Proof. intros H s Hs. by apply H. Qed.

Lemma hoare_bind {A B} (P : S → Prop) (m : M S A) (k : A → M S B)
    (R : A → S → Prop) (Q : B → S → Prop) E :
  hoare P m R E → (∀ a, hoare (R a) (k a) Q E) → hoare P (m ≫= k) Q E.
Proof.
  intros Hm Hk s Hs. specialize (Hm s Hs).
  unfold mbind, M_bind, bind. destruct (m s) as [[a|e|] s']; [|done..].
  by apply Hk.
Qed.

Lemma hoare_weaken {A} (P P' : S → Prop) (m : M S A) (Q Q' : A → S → Prop) E :
  hoare P' m Q' E → (∀ s, P s → P' s) → (∀ a s, Q' a s → Q a s) → hoare P m Q E.
Proof.
  intros Hm HP HQ s Hs. specialize (Hm s (HP s Hs)).
  destruct (m s) as [[a|e|] s']; [|done..]. by apply HQ.
Qed.

Lemma hoare_for_each {A B} (I : B → S → Prop) E (l : list A)
    (body : A → B → M S B) :
  (∀ x acc, x ∈ l → hoare (I acc) (body x acc) I E) →
  ∀ acc, hoare (I acc) (for_each l body acc) I E.
Proof.
  induction l as [|x l IH]; intros Hbody acc; cbn [for_each].
  - by apply hoare_ret.
  - eapply hoare_bind; [apply Hbody; left|].
    intros acc'. apply IH. intros y acc'' Hy. apply Hbody. by right.
Qed.

End hoare_rules.

(** ** The motion-correction dispatcher *)

Section mc_dispatch.
Import motioncorr motioncorr_spec.
Context (tool : command → gset string → Process).

Lemma update_mc2_metadata_spec self w :
  ∃ self',
    update_mc2_metadata self w = (Return self', w)
    ∧ meta self' = pd.loc (λ r, negb (isfile w (output r))) (meta self)
    ∧ meta_out self'
      = pd.concat_ignore_index
          [meta_out self; pd.loc (λ r, isfile w (output r)) (meta self)]
    ∧ _curr_meta self' = pd.loc (λ r, negb (isfile w (output r))) (_curr_meta self)
    ∧ use_gpu self' = use_gpu self ∧ params self' = params self
    ∧ log self' = log self.
Proof. eexists. split; [reflexivity|]. cbn. done. Qed.

Lemma decode_utf8_inr b text : decode_utf8 b = inr text → text = b.
Proof. unfold decode_utf8. by destruct (well_formed_utf8 _); intros [= <-]. Qed.

Lemma decode_utf8_inl b e : decode_utf8 b = inl e → e = UnicodeDecodeError "utf-8".
Proof. unfold decode_utf8. by destruct (well_formed_utf8 _); intros [= <-]. Qed.

(** One harvested process.  When its output is well-formed UTF-8 the text
    is logged, every pending row whose output file is now on disk moves to
    the done table, and the done table is written to the record, whatever
    the exit status; otherwise the harvest fails once the process has
    ended, and neither the tables nor the record change. *)
Lemma harvest_cases process self w :
  let p := tool process (files w) in
  let on_disk (r : row) := bool_decide (output r ∈ files_after p) in
  match decode_utf8 (out p +:+ err p) with
  | inr text =>
      ∃ self' w',
        harvest tool process self w = (Return self', w')
        ∧ meta self' = pd.loc (λ r, negb (on_disk r)) (meta self)
        ∧ meta_out self'
          = pd.concat_ignore_index [meta_out self; pd.loc on_disk (meta self)]
        ∧ _curr_meta self' = pd.loc (λ r, negb (on_disk r)) (_curr_meta self)
        ∧ use_gpu self' = use_gpu self ∧ params self' = params self
        ∧ log self' = log self ++ [text]
        ∧ files w' = files_after p
        ∧ mc2_mdout w' = Some (meta_out self')
        ∧ logged w' = logged w
        ∧ trace w' = trace w ++ [Communicate process (returncode p); Export self']
  | inl e =>
      harvest tool process self w
      = (Raise e, emit (Communicate process (returncode p))
                       (set_files (files_after p) w))
  end.
Proof.
  intros p on_disk.
  unfold harvest, communicate, update_mc2_metadata, export_metadata,
    mbind, M_bind, bind, get, modify, lift, mret, M_ret, ret, raise.
  cbn -[decode_utf8]. fold p.
  destruct (decode_utf8 (out p +:+ err p)) as [e|text]; cbn; [reflexivity|].
  eexists _, _. split; [reflexivity|]. cbn. rewrite <- app_assoc. done.
Qed.

Lemma harvest_return process self w self' w' :
  harvest tool process self w = (Return self', w') →
  let p := tool process (files w) in
  let on_disk (r : row) := bool_decide (output r ∈ files_after p) in
  meta self' = pd.loc (λ r, negb (on_disk r)) (meta self)
  ∧ meta_out self'
    = pd.concat_ignore_index [meta_out self; pd.loc on_disk (meta self)]
  ∧ _curr_meta self' = pd.loc (λ r, negb (on_disk r)) (_curr_meta self)
  ∧ use_gpu self' = use_gpu self ∧ params self' = params self
  ∧ log self' = log self ++ [out p +:+ err p]
  ∧ files w' = files_after p
  ∧ mc2_mdout w' = Some (meta_out self')
  ∧ logged w' = logged w
  ∧ trace w' = trace w ++ [Communicate process (returncode p); Export self'].
Proof.
  intros Heq p on_disk. pose proof (harvest_cases process self w) as Hc.
  cbn zeta in Hc. fold p in Hc.
  destruct (decode_utf8 (out p +:+ err p)) as [e|text] eqn:Hd.
  - rewrite Heq in Hc. done.
  - apply decode_utf8_inr in Hd. subst text.
    destruct Hc as (s & w1 & Heq' & Hc). rewrite Heq in Heq'.
    injection Heq' as <- <-. exact Hc.
Qed.

Lemma harvest_raise process self w e w' :
  harvest tool process self w = (Raise e, w') →
  let p := tool process (files w) in
  e = UnicodeDecodeError "utf-8"
  ∧ w' = emit (Communicate process (returncode p)) (set_files (files_after p) w).
Proof.
  intros Heq p. pose proof (harvest_cases process self w) as Hc.
  cbn zeta in Hc. fold p in Hc.
  destruct (decode_utf8 (out p +:+ err p)) as [e'|text] eqn:Hd.
  - rewrite Heq in Hc. injection Hc as -> ->.
    split; [by eapply decode_utf8_inl|done].
  - destruct Hc as (s & w1 & Heq' & _). rewrite Heq in Heq'. done.
Qed.

Lemma harvest_fuel process self w w' :
  harvest tool process self w ≠ (OutOfFuel, w').
Proof.
  intros Heq. pose proof (harvest_cases process self w) as Hc. cbn zeta in Hc.
  destruct (decode_utf8 _) as [e'|text].
  - rewrite Heq in Hc. done.
  - destruct Hc as (s & w1 & Heq' & _). rewrite Heq in Heq'. done.
Qed.


Lemma spawn_all_spec (job started : list command) w :
  for_each job (λ cmd (started : list command),
                  p ← spawn cmd; mret (started ++ [p])) started w
  = (Return (started ++ job),
     set_trace (trace w ++ (Popen <$> job)) w).
Proof.
  revert started w. induction job as [|c job IH]; intros started w; cbn [for_each].
  - cbn. rewrite !app_nil_r. by destruct w.
  - unfold mbind at 1, M_bind at 1, bind at 1.
    change ((spawn c ≫= λ p : command, mret (started ++ [p])) w)
      with (Return (started ++ [c]) : Result (list command), emit (Popen c) w).
    cbn -[for_each]. rewrite IH. cbn. by rewrite <- !app_assoc.
Qed.

(** An invariant [I] of the object and the world is kept by the whole
    dispatch as soon as it is kept by starting a process and by harvesting
    one; [okc] is what is known of every command of the pass, and [E] what
    is left when the run stops early: on output that cannot be decoded, on
    a bound that [_yield_chunks] refuses, or on its budget. *)
Section invariant.
Context (I : Motioncorr → World → Prop) (E : option Exception → World → Prop).
Context (okc : command → Prop).
Context (Hcmd : ∀ self w r, I self w → r ∈ pd.rows (_curr_meta self) →
                            okc (image_tuple r)).
Context (Hcurr : ∀ self w f, I self w →
                             I (set_curr_meta (pd.loc f (meta self)) self) w).
Context (Hspawn : ∀ self w c, I self w → okc c → I self (emit (Popen c) w)).
Context (Hharvest : ∀ self w c, I self w → okc c →
           ∀ self' w', harvest tool c self w = (Return self', w') → I self' w').
Context (Hdecode : ∀ self w c, I self w → okc c →
           ∀ e w', harvest tool c self w = (Raise e, w') → E (Some e) w').
Context (Hsize : ∀ self w c e, I self w → okc c →
           _yield_chunks (image_tuple <$> pd.rows (_curr_meta self)) (bound self) = inl e →
           E (Some e) (emit (Popen c) w)).
Context (Hfuel : ∀ self w, I self w → E None w).

Lemma spawn_all_inv self (job : list command) w :
  I self w → Forall okc job →
  I self (set_trace (trace w ++ (Popen <$> job)) w).
Proof.
  revert w. induction job as [|c job IH]; intros w HI Hok; cbn.
  - rewrite app_nil_r. by destruct w.
  - apply Forall_cons in Hok as [Hc Hok].
    specialize (IH _ (Hspawn _ _ _ HI Hc) Hok). cbn in IH.
    by rewrite <- app_assoc in IH.
Qed.

Lemma harvest_all_inv (processes : list command) :
  Forall okc processes →
  ∀ self, hoare (I self) (for_each processes (harvest tool) self) I E.
Proof.
  intros Hok. apply hoare_for_each. intros c self Hc w HI.
  rewrite Forall_forall in Hok.
  destruct (harvest tool c self w) as [[self'|e|] w'] eqn:Heq.
  - eapply Hharvest; eauto.
  - eapply Hdecode; eauto.
  - by apply harvest_fuel in Heq.
Qed.

Lemma run_chunk_inv (job : list command) self :
  Forall okc job → hoare (I self) (run_chunk tool job self) I E.
Proof.
  intros Hok w HI. unfold run_chunk.
  unfold mbind at 1, M_bind at 1, bind at 1. rewrite spawn_all_spec. cbn [app].
  apply harvest_all_inv; [done|]. by apply spawn_all_inv.
Qed.

Lemma run_pass_inv self : hoare (I self) (run_pass tool self) I E.
Proof.
  intros w HI. unfold run_pass. fold (bound self).
  set (mc_commands := image_tuple <$> pd.rows (_curr_meta self)).
  assert (Forall okc mc_commands) as Hok.
  { apply Forall_forall. intros c Hc. apply list_elem_of_fmap in Hc as (r & -> & Hr).
    by eapply Hcmd. }
  destruct (_yield_chunks mc_commands (bound self)) as [e|chunks] eqn:Hy.
  - pose proof (yield_chunks_out_of_range _ _ _ Hy) as (Hne & _).
    destruct mc_commands as [|c cs] eqn:Hmc; [done|]. cbn.
    apply Forall_cons in Hok as [Hc _].
    apply (Hsize self w c e HI Hc). fold mc_commands. by rewrite Hmc.
  - pose proof (yield_chunks_join _ _ _ Hy) as Hjoin.
    revert w HI. apply hoare_for_each. intros job self' Hjob.
    apply run_chunk_inv. apply Forall_forall. intros c Hc.
    rewrite Forall_forall in Hok. apply Hok. rewrite <- Hjoin.
    apply list_elem_of_join. eauto.
Qed.

Lemma while_curr_meta_inv fuel self :
  hoare (I self) (while_curr_meta tool fuel self) I E.
Proof.
  revert self. induction fuel as [|fuel IH]; intros self w HI; cbn [while_curr_meta].
  - case_bool_decide; cbn; [by apply (Hfuel self)|done].
  - case_bool_decide; [|done].
    revert w HI. eapply hoare_bind; [apply run_pass_inv|]. intros self'. apply IH.
Qed.

Lemma series_inv fuel (series : list Z) self :
  hoare (I self)
    (for_each series
       (λ curr_ts self,
          while_curr_meta tool fuel
            (set_curr_meta (pd.loc (λ r, bool_decide (ts r = curr_ts)) (meta self))
                           self))
       self) I E.
Proof.
  apply hoare_for_each. intros curr_ts self' _ w HI.
  apply while_curr_meta_inv. by apply Hcurr.
Qed.

Lemma run_mc2_inv fuel self : hoare (I self) (run_mc2 tool fuel self) I E.
Proof. apply series_inv. Qed.
End invariant.

(** The same, for an invariant that starting a process, waiting for one
    and harvesting one keep, whatever the outcome. *)
Section lasting.
Context (I : Motioncorr → World → Prop) (okc : command → Prop).
Context (Hcmd : ∀ self w r, I self w → r ∈ pd.rows (_curr_meta self) →
                            okc (image_tuple r)).
Context (Hcurr : ∀ self w f, I self w →
                             I (set_curr_meta (pd.loc f (meta self)) self) w).
Context (Hspawn : ∀ self w c, I self w → okc c → I self (emit (Popen c) w)).
Context (Hwait : ∀ self w c status fs, I self w → okc c →
                   I self (emit (Communicate c status) (set_files fs w))).
Context (Hharvest : ∀ self w c, I self w → okc c →
           ∀ self' w', harvest tool c self w = (Return self', w') → I self' w').

Lemma run_mc2_lasting fuel self :
  hoare (I self) (run_mc2 tool fuel self) I (lost I).
Proof.
  apply run_mc2_inv with (okc := okc); try done.
  - intros s w c HI Hc e w' Heq. apply harvest_raise in Heq as [_ ->].
    exists s. by apply Hwait.
  - intros s w c e HI Hc _. exists s. by apply Hspawn.
  - intros s w HI. by exists s.
Qed.
End lasting.
End mc_dispatch.

(** ** Reconciliation at construction *)

Section mc_reconcile.
Import motioncorr motioncorr_spec.

(** What [_check_processed_images] does, in one statement: it fails only
    when pandas cannot align the mask of the merge; otherwise the done
    table is the record filtered by that mask, the pending table loses the
    rows whose output path is in the done table, and [no_processes] is set
    when that leaves nothing. *)
Lemma check_processed_images_cases self w :
  let record := default [] (mc2_mdout w) in
  let missing_specified :=
    pd.concat_ignore_index
      (pd.DataFrame [] ::
       ((λ curr_ts, pd.loc (λ r, bool_decide (ts r = curr_ts))
                      (pd.loc (λ r, negb (isfile w (output r))) record))
          <$> process_list (params self))) in
  let reinstated :=
    if bool_decide (0 < pd.len record)%nat
    then pd.getitem_bool record
           (pd.merge_left_only (pd.rows record) (pd.rows missing_specified))
    else inr record in
  match reinstated with
  | inl e => _check_processed_images self w = (Raise e, w)
  | inr kept =>
      let in_record (r : row) :=
        bool_decide (output r ∈ output <$> pd.rows kept) in
      ∃ self' w' rest,
        _check_processed_images self w = (Return self', w')
        ∧ meta_out self' = kept
        ∧ meta self' = pd.loc (λ r, negb (in_record r)) (meta self)
        ∧ no_processes self'
          = no_processes self
            || bool_decide (pd.len (pd.loc in_record (meta self)) = pd.len (meta self))
        ∧ params self' = params self ∧ use_gpu self' = use_gpu self
        ∧ _curr_meta self' = _curr_meta self
        ∧ trace w' = trace w ∧ files w' = files w ∧ mc2_mdout w' = mc2_mdout w
        ∧ dirs w' = dirs w ∧ mkdir_status w' = mkdir_status w
        ∧ logged w'
          = logged w
            ++ (if bool_decide (0 < pd.len record)%nat
                   && bool_decide (0 < pd.len missing_specified)%nat
                then [missing_message (pd.len missing_specified)] else [])
            ++ rest
  end.
Proof.
  intros record missing_specified reinstated. subst reinstated.
  unfold _check_processed_images.
  unfold mbind, M_bind, bind, get, lift, logObj, modify, mret, M_ret, ret, raise.
  cbn -[pd.loc pd.getitem_bool pd.merge_left_only pd.concat_ignore_index
        pd.DataFrame pd.rows pd.len].
  fold record. fold missing_specified.
  destruct (bool_decide (0 < pd.len record)%nat);
    [destruct (pd.getitem_bool _ _) as [e|kept]; [done|];
     cbn -[pd.loc pd.concat_ignore_index pd.DataFrame pd.rows pd.len];
     destruct (bool_decide (0 < pd.len missing_specified)%nat)|];
    cbn -[pd.loc pd.concat_ignore_index pd.DataFrame pd.rows pd.len];
    repeat case_bool_decide;
    cbn -[pd.loc pd.concat_ignore_index pd.DataFrame pd.rows pd.len];
    eexists _, _, _; (split; [reflexivity|]);
    cbn -[pd.loc pd.concat_ignore_index pd.DataFrame pd.rows pd.len];
    rewrite ?orb_false_r, ?orb_true_r, <- ?app_assoc;
    repeat split; try done; try lia; try (by rewrite app_nil_r).
  Unshelve. all: exact [].
Qed.
End mc_reconcile.

(** ** Reinstatement *)

Section by_series.
Context {R : Type} `{EqDecision R} (key : R → Z).





End by_series.

Section mc_reinstatement.
Import motioncorr motioncorr_spec.

End mc_reinstatement.

(** ** Construction of the motion-correction object *)

Section mc_init.
Import motioncorr motioncorr_spec.

Lemma check_processed_images_inv self w self' w' :
  _check_processed_images self w = (Return self', w') →
  let in_record (r : row) :=
    bool_decide (output r ∈ output <$> pd.rows (meta_out self')) in
  meta self' = pd.loc (λ r, negb (in_record r)) (meta self)
  ∧ no_processes self'
    = no_processes self
      || bool_decide (pd.len (pd.loc in_record (meta self)) = pd.len (meta self))
  ∧ params self' = params self ∧ use_gpu self' = use_gpu self
  ∧ _curr_meta self' = _curr_meta self.
Proof.
  intros Heq. pose proof (check_processed_images_cases self w) as Hc.
  cbn zeta in Hc. destruct (if bool_decide _ then _ else _) as [e|kept].
  - congruence.
  - destruct Hc as (s & w1 & rest & Heq' & Hout & Hc). rewrite Heq in Heq'.
    injection Heq' as <- <-. cbn zeta. rewrite Hout. tauto.
Qed.

(** Reconciliation only reads the disk and the record. *)
Lemma check_processed_images_world self w r w' :
  _check_processed_images self w = (r, w') →
  trace w' = trace w ∧ files w' = files w ∧ mc2_mdout w' = mc2_mdout w
  ∧ dirs w' = dirs w ∧ mkdir_status w' = mkdir_status w.
Proof.
  intros Heq. pose proof (check_processed_images_cases self w) as Hc.
  cbn zeta in Hc. destruct (if bool_decide _ then _ else _) as [e|kept].
  - rewrite Heq in Hc. by simplify_eq.
  - destruct Hc as (s & w1 & rest & Heq' & _ & _ & _ & _ & _ & _ & Hc).
    rewrite Heq in Heq'. simplify_eq. tauto.
Qed.

Lemma loc_all_iff {R} (f : R → bool) (df : pd.frame R) :
  pd.len (pd.loc f df) = pd.len df ↔ pd.rows (pd.loc (λ r, negb (f r)) df) = [].
Proof.
  unfold pd.len, pd.loc, pd.rows. induction df as [|[i r] df IH]; cbn; [done|].
  pose proof (filter_length_le (λ p : nat * R, f p.2) df) as Hle.
  destruct (f r); cbn.
  - rewrite <- IH. lia.
  - split; [lia|done].
Qed.

(** Creating the output folder: one [mkdir] when the folder is not there,
    fatal when its output is not ASCII or when it exits with a non-zero
    status. *)
Lemma make_output_folder_cases path w :
  match _make_output_folder path w with
  | (Return _, w') =>
      trace w' = trace w ++ (if isdir w path then [] else [Mkdir path 0])
      ∧ files w' = files w ∧ mc2_mdout w' = mc2_mdout w
  | (Raise e, w') =>
      trace w' = trace w ++ [Mkdir path (mkdir_status w path)]
      ∧ files w' = files w ∧ mc2_mdout w' = mc2_mdout w
      ∧ e = (if is_ascii (mkdir_output w path)
             then CalledProcessError (mkdir_status w path)
             else UnicodeDecodeError "ascii")
  | (OutOfFuel, _) => False
  end.
Proof.
  unfold _make_output_folder, decode_ascii.
  unfold mbind, M_bind, bind, get, modify, lift, mret, M_ret, ret, raise. cbn.
  destruct (isdir w path); cbn; [by rewrite app_nil_r|].
  destruct (bool_decide (mkdir_status w path = 0)) eqn:Hst; cbn;
    destruct (is_ascii (mkdir_output w path)); cbn; try done.
  - apply bool_decide_eq_true in Hst. rewrite Hst. cbn. done.
  - apply bool_decide_eq_false in Hst. by rewrite bool_decide_eq_true_2.
Qed.

Context (nvidia_smi : Exception + list (string * string) * list string).

(** Whatever the outcome, construction queries the devices once, creates
    the output folder at most once, and touches neither the files on disk
    nor the record. *)
Lemma init_world project_name prm md w r w1 :
  __init__ nvidia_smi project_name prm md w = (r, w1) →
  (∃ tail, trace w1 = trace w ++ NvidiaSmi :: tail
           ∧ (tail = [] ∨ ∃ status, tail = [Mkdir (output_path prm) status]))
  ∧ files w1 = files w ∧ mc2_mdout w1 = mc2_mdout w.
Proof.
  unfold __init__, _get_gpu_nvidia_smi.
  unfold mbind, M_bind, bind, modify, lift, mret, M_ret, ret, raise.
  cbn -[_check_processed_images _make_output_folder pd.loc pd.DataFrame].
  destruct nvidia_smi as [e|[nv_uuid nv_processes]];
    cbn -[_check_processed_images _make_output_folder pd.loc pd.DataFrame].
  { intros [= <- <-]. split; [|done]. exists []. split; [done|by left]. }
  destruct ((List.filter _ nv_uuid).*1) as [|d0 ds] eqn:Hvis;
    cbn -[_check_processed_images _make_output_folder pd.loc pd.DataFrame].
  { intros [= <- <-]. split; [|done]. exists []. split; [done|by left]. }
  match goal with |- context [_check_processed_images ?s ?w0] =>
    destruct (_check_processed_images s w0) as [r0 w2] eqn:Hcheck end.
  apply check_processed_images_world in Hcheck as (Htr & Hf & Hr & _).
  cbn in Htr, Hf, Hr.
  destruct r0 as [self0|e|].
  2,3: intros [= <- <-]; split; [|done]; exists []; split; [done|by left].
  pose proof (make_output_folder_cases (output_path prm) w2) as Hm.
  destruct (_make_output_folder (output_path prm) w2) as [[[]|e|] w3]; [| |done].
  - destruct Hm as (Htr' & Hf' & Hr'). intros [= <- <-].
    rewrite Htr', Hf', Hr', Htr, Hf, Hr, <- app_assoc. split; [|done].
    eexists. split; [done|]. destruct (isdir w2 _); [by left|right; by eexists].
  - destruct Hm as (Htr' & Hf' & Hr' & _). intros [= <- <-].
    rewrite Htr', Hf', Hr', Htr, Hf, Hr, <- app_assoc. split; [|done].
    eexists. split; [done|]. right. by eexists.
Qed.

Lemma init_inv project_name prm md w self w1 :
  __init__ nvidia_smi project_name prm md w = (Return self, w1) →
  ∃ nv_uuid nv_processes d0 candidates,
    nvidia_smi = inr (nv_uuid, nv_processes)
    ∧ use_gpu self
      = (List.filter (λ g : string * string, negb (bool_decide (g.2 ∈ nv_processes)))
                     nv_uuid).*1
    ∧ use_gpu self !! 0%nat = Some d0
    ∧ Forall (λ r, gpu r = d0) (pd.rows candidates)
    ∧ meta self
      = pd.loc (λ r, negb (bool_decide
                             (output r ∈ output <$> pd.rows (meta_out self))))
               candidates
    ∧ (no_processes self = true ↔ pd.rows (meta self) = [])
    ∧ params self = prm ∧ _curr_meta self = []
    ∧ trace w1
      = trace w ++ NvidiaSmi :: (if isdir w (output_path prm) then []
                                 else [Mkdir (output_path prm) 0]).
Proof.
  unfold __init__, _get_gpu_nvidia_smi.
  unfold mbind, M_bind, bind, modify, lift, mret, M_ret, ret, raise.
  cbn -[_check_processed_images _make_output_folder pd.loc pd.DataFrame].
  destruct nvidia_smi as [e|[nv_uuid nv_processes]];
    cbn -[_check_processed_images _make_output_folder pd.loc pd.DataFrame]; [done|].
  destruct ((List.filter _ nv_uuid).*1) as [|d0 ds] eqn:Hvis;
    cbn -[_check_processed_images _make_output_folder pd.loc pd.DataFrame]; [done|].
  match goal with |- context [_check_processed_images ?s ?w0] =>
    destruct (_check_processed_images s w0) as [r0 w2] eqn:Hcheck end.
  destruct r0 as [self0|e|]; [|done..].
  pose proof (check_processed_images_world _ _ _ _ Hcheck) as (Htr & _ & _ & Hd & _).
  apply check_processed_images_inv in Hcheck.
  cbn -[pd.loc pd.DataFrame pd.rows pd.len] in Hcheck, Htr, Hd.
  destruct Hcheck as (Hmeta & Hno & Hprm & Hgpu & Hcurr).
  pose proof (make_output_folder_cases (output_path prm) w2) as Hm.
  destruct (_make_output_folder (output_path prm) w2) as [[[]|e|] w3]; [|done..].
  destruct Hm as (Htr' & _). intros [= <- <-].
  eexists nv_uuid, nv_processes, d0, _.
  split; [done|]. split; [by rewrite Hgpu, Hvis|]. split; [by rewrite Hgpu|].
  split; [|split; [exact Hmeta|]].
  { unfold pd.rows. rewrite <- list_fmap_compose. apply Forall_fmap, Forall_true.
    by intros [i r]. }
  split; [|split; [done|split; [done|]]].
  - rewrite Hno, Hmeta. cbn. rewrite bool_decide_eq_true. apply loc_all_iff.
  - rewrite Htr', Htr, <- app_assoc. unfold isdir. by rewrite Hd.
Qed.
End mc_init.

(** ** What the dispatcher keeps true *)

Section mc_invariants.
Import motioncorr motioncorr_spec.
Context (tool : command → gset string → Process).

Lemma for_each_app {S A B} (l1 l2 : list A) (body : A → B → M S B) (acc : B) (s : S) :
  for_each (l1 ++ l2) body acc s
  = (acc' ← for_each l1 body acc; for_each l2 body acc') s.
Proof.
  revert acc s. induction l1 as [|x l1 IH]; intros acc s; [done|].
  cbn [app for_each]. unfold mbind, M_bind, bind in *.
  destruct (body x acc s) as [[acc'|e|] s']; [|done..]. apply IH.
Qed.

Lemma checkpoints_ok_app (a b : list event) :
  checkpoints_ok a → checkpoints_ok b → checkpoints_ok (a ++ b).
Proof.
  intros Ha Hb. remember (length a) as n eqn:Hn.
  assert (length a ≤ n)%nat as Hle by lia. clear Hn.
  revert a Ha Hle. induction n as [|n IH]; intros [|e a] Ha Hle; cbn in *;
    try done; try lia.
  destruct e; try (apply IH; [done|lia]).
  destruct a as [|[] a]; cbn in *; try done. apply IH; [done|lia].
Qed.

Lemma last_export_app (a b : list event) :
  last_export (a ++ b)
  = foldl (λ acc e, match e with Export s => Some s | _ => acc end)
          (last_export a) b.
Proof. unfold last_export. apply foldl_app. Qed.

Lemma harvest_keeps_disjoint c self w self' w' :
  disjoint self → harvest tool c self w = (Return self', w') → disjoint self'.
Proof.
  intros Hd Heq.
  pose proof (harvest_return tool c self w _ _ Heq) as (Hmeta & Hout & _).
  intros r. rewrite Hmeta, Hout, rows_loc, rows_concat_ignore_index. cbn.
  rewrite app_nil_r, rows_loc, fmap_app, elem_of_app.
  intros Hr. apply list_elem_of_In, filter_In in Hr as [Hr Hdisk].
  apply list_elem_of_In in Hr. apply negb_true_iff, bool_decide_eq_false in Hdisk.
  intros [Hold|Hnew].
  - by apply (Hd r).
  - apply list_elem_of_fmap in Hnew as (r' & Ho & Hr').
    apply list_elem_of_In, filter_In in Hr' as [_ Hdisk'].
    apply bool_decide_eq_true in Hdisk'. congruence.
Qed.

(** Disjointness holds at every write of the record. *)
Lemma run_mc2_disjoint fuel self w :
  disjoint self →
  ∃ new,
    trace (run_mc2 tool fuel self w).2 = trace w ++ new
    ∧ (∀ s, Export s ∈ new → disjoint s)
    ∧ (∀ self', (run_mc2 tool fuel self w).1 = Return self' → disjoint self').
Proof.
  intros Hd.
  set (I := λ (s : Motioncorr) (w' : World),
              disjoint s ∧ ∃ new, trace w' = trace w ++ new
                                  ∧ ∀ s', Export s' ∈ new → disjoint s').
  assert (I self w) as HI.
  { split; [done|]. exists []. rewrite app_nil_r. split; [done|].
    intros s' Hs. by apply elem_of_nil in Hs. }
  assert (Hrun : match run_mc2 tool fuel self w with
                 | (Return self', w') => I self' w'
                 | (_, w') => ∃ s, I s w'
                 end).
  { apply (run_mc2_lasting tool I (λ _, True)); [..|exact HI].
    - done.
    - intros s w' f [Hs Hnew]. split; [exact Hs|exact Hnew].
    - intros s w' c [Hs (new & Htr & Hnew)] _. split; [done|].
      exists (new ++ [Popen c]). cbn. rewrite Htr, <- app_assoc. split; [done|].
      intros s' Hs'. apply elem_of_app in Hs' as [Hs'|Hs']; [by apply Hnew|].
      apply list_elem_of_singleton in Hs'. done.
    - intros s w' c status fs [Hs (new & Htr & Hnew)] _. split; [done|].
      exists (new ++ [Communicate c status]). cbn. rewrite Htr, <- app_assoc.
      split; [done|].
      intros s' Hs'. apply elem_of_app in Hs' as [Hs'|Hs']; [by apply Hnew|].
      apply list_elem_of_singleton in Hs'. done.
    - intros s w' c [Hs (new & Htr & Hnew)] _ s' w'' Heq.
      assert (disjoint s') as Hs' by by eapply harvest_keeps_disjoint.
      split; [done|].
      pose proof (harvest_return tool c s w' _ _ Heq)
        as (_ & _ & _ & _ & _ & _ & _ & _ & _ & Htr').
      eexists (new ++ [_; _]). rewrite Htr', Htr, <- app_assoc. split; [done|].
      intros s2 Hs2. apply elem_of_app in Hs2 as [Hs2|Hs2]; [by apply Hnew|].
      apply elem_of_cons in Hs2 as [Hs2|Hs2]; [done|].
      apply list_elem_of_singleton in Hs2. by injection Hs2 as ->. }
  destruct (run_mc2 tool fuel self w) as [[self'|e|] w'] eqn:Hr; cbn.
  - destruct Hrun as [Hs (new & Htr & Hnew)]. exists new.
    split; [done|]. split; [done|]. by intros ? [= <-].
  - destruct Hrun as (s & Hs & new & Htr & Hnew). by exists new.
  - destruct Hrun as (s & Hs & new & Htr & Hnew). by exists new.
Qed.

(** Every process is started on the device found in the rows at
    construction. *)
Lemma run_mc2_device d0 fuel self w :
  Forall (λ r, gpu r = d0) (pd.rows (meta self)) →
  Forall (λ r, gpu r = d0) (pd.rows (_curr_meta self)) →
  ∃ new,
    trace (run_mc2 tool fuel self w).2 = trace w ++ new
    ∧ ∀ cmd, Popen cmd ∈ new → gpu_number cmd = d0.
Proof.
  intros Hm Hc.
  set (I := λ (s : Motioncorr) (w' : World),
              (Forall (λ r, gpu r = d0) (pd.rows (meta s))
               ∧ Forall (λ r, gpu r = d0) (pd.rows (_curr_meta s)))
              ∧ ∃ new, trace w' = trace w ++ new
                       ∧ ∀ cmd, Popen cmd ∈ new → gpu_number cmd = d0).
  assert (I self w) as HI.
  { split; [done|]. exists []. rewrite app_nil_r. split; [done|].
    intros s' Hs. by apply elem_of_nil in Hs. }
  assert (Hfilter : ∀ (f : row → bool) (df : pd.frame row),
            Forall (λ r, gpu r = d0) (pd.rows df) →
            Forall (λ r, gpu r = d0) (pd.rows (pd.loc f df))).
  { intros f df. rewrite rows_loc, !Forall_forall. intros H r Hr.
    apply H. apply list_elem_of_In, filter_In in Hr as [Hr _].
    by apply list_elem_of_In. }
  assert (Hrun : match run_mc2 tool fuel self w with
                 | (Return self', w') => I self' w'
                 | (_, w') => ∃ s, I s w'
                 end).
  { apply (run_mc2_lasting tool I (λ c, gpu_number c = d0)); [..|exact HI].
    - intros s w' r [[_ Hcur] _] Hr. rewrite Forall_forall in Hcur. by apply Hcur.
    - intros s w' f [[Hmeta _] Hnew]. split; [|exact Hnew]. split; [done|].
      cbn. by apply Hfilter.
    - intros s w' c [Hs (new & Htr & Hnew)] Hc'. split; [done|].
      exists (new ++ [Popen c]). cbn. rewrite Htr, <- app_assoc. split; [done|].
      intros c' Hs'. apply elem_of_app in Hs' as [Hs'|Hs']; [by apply Hnew|].
      apply list_elem_of_singleton in Hs'. by injection Hs' as ->.
    - intros s w' c status fs [Hs (new & Htr & Hnew)] Hc'. split; [done|].
      exists (new ++ [Communicate c status]). cbn. rewrite Htr, <- app_assoc.
      split; [done|].
      intros c' Hs'. apply elem_of_app in Hs' as [Hs'|Hs']; [by apply Hnew|].
      by apply list_elem_of_singleton in Hs'.
    - intros s w' c [[Hmeta Hcur] (new & Htr & Hnew)] _ s' w'' Heq.
      pose proof (harvest_return tool c s w' _ _ Heq)
        as (Hm' & _ & Hc' & _ & _ & _ & _ & _ & _ & Htr').
      split.
      + rewrite Hm', Hc'. split; by apply Hfilter.
      + eexists (new ++ [_; _]). rewrite Htr', Htr, <- app_assoc. split; [done|].
        intros c' Hs2. apply elem_of_app in Hs2 as [Hs2|Hs2]; [by apply Hnew|].
        apply elem_of_cons in Hs2 as [Hs2|Hs2]; [done|].
        by apply list_elem_of_singleton in Hs2. }
  destruct (run_mc2 tool fuel self w) as [[self'|e|] w'] eqn:Hr; cbn.
  - by destruct Hrun as [_ Hnew].
  - by destruct Hrun as (s & _ & Hnew).
  - by destruct Hrun as (s & _ & Hnew).
Qed.

(** Every harvest is followed at once by a write of the record, unless the
    run fails on the output of the process, and the record on disk is the
    done table of the last write. *)
Lemma run_mc2_checkpoints fuel self w :
  ∃ new,
    trace (run_mc2 tool fuel self w).2 = trace w ++ new
    ∧ checkpointed new (run_mc2 tool fuel self w).1
    ∧ record_follows w new (run_mc2 tool fuel self w).2.
Proof.
  set (I := λ (s : Motioncorr) (w' : World),
              ∃ new, trace w' = trace w ++ new ∧ checkpoints_ok new
                     ∧ record_follows w new w').
  set (E := λ (oe : option Exception) (w' : World),
              ∃ new, trace w' = trace w ++ new
                     ∧ @checkpointed Motioncorr new
                         (match oe with Some e => Raise e | None => OutOfFuel end)
                     ∧ record_follows w new w').
  assert (I self w) as HI.
  { exists []. rewrite app_nil_r. by repeat split. }
  pose proof (run_mc2_inv tool I E (λ _, True)) as Hinv.
  assert (Hrun : match run_mc2 tool fuel self w with
                 | (Return self', w') => I self' w'
                 | (Raise e, w') => E (Some e) w'
                 | (OutOfFuel, w') => E None w'
                 end).
  { apply Hinv; [..|exact HI].
    - done.
    - intros s w' f Hs. exact Hs.
    - intros s w' c (new & Htr & Hok & Hrec) _.
      exists (new ++ [Popen c]). cbn. rewrite Htr, <- app_assoc. split; [done|].
      split; [by apply checkpoints_ok_app|].
      unfold record_follows in *. cbn. by rewrite last_export_app.
    - intros s w' c (new & Htr & Hok & Hrec) _ s' w'' Heq.
      pose proof (harvest_return tool c s w' _ _ Heq)
        as (_ & _ & _ & _ & _ & _ & _ & Hmd & _ & Htr').
      eexists (new ++ [_; _]). rewrite Htr', Htr, <- app_assoc. split; [done|].
      split; [by apply checkpoints_ok_app|].
      unfold record_follows. by rewrite last_export_app.
    - intros s w' c (new & Htr & Hok & Hrec) _ e w'' Heq.
      apply harvest_raise in Heq as [-> ->].
      eexists (new ++ [_]). cbn. rewrite Htr, <- app_assoc. split; [done|]. split.
      + right. by eexists _, _, _.
      + unfold record_follows in *. cbn. by rewrite last_export_app.
    - intros s w' c e (new & Htr & Hok & Hrec) _ _.
      exists (new ++ [Popen c]). cbn. rewrite Htr, <- app_assoc. split; [done|].
      split; [left; by apply checkpoints_ok_app|].
      unfold record_follows in *. cbn. by rewrite last_export_app.
    - intros s w' (new & Htr & Hok & Hrec). exists new. split; [done|].
      split; [by left|done]. }
  destruct (run_mc2 tool fuel self w) as [[self'|e|] w'] eqn:Hr; cbn.
  - destruct Hrun as (new & Htr & Hok & Hrec). exists new.
    split; [done|]. split; [by left|done].
  - destruct Hrun as (new & Htr & Hok & Hrec). exists new.
    split; [done|]. split; [|done].
    destruct Hok as [Hok|(pre & c & st & -> & Hok & Hr')]; [by left|].
    right. by eexists _, _, _.
  - destruct Hrun as (new & Htr & Hok & Hrec). exists new.
    split; [done|]. split; [|done].
    destruct Hok as [Hok|(pre & c & st & -> & Hok & Hr')]; [by left|done].
Qed.
End mc_invariants.

(** ** The dispatch as a sequence of harvests *)

Section mc_harvests.
Import motioncorr motioncorr_spec.
Context (tool : command → gset string → Process).

Lemma waited_app (a b : list event) : waited (a ++ b) = waited a ++ waited b.
Proof. apply omap_app. Qed.

Lemma steps_app (a b : list event) : steps (a ++ b) = steps a ++ steps b.
Proof. apply omap_app. Qed.

(** A harvest only looks at the tables, the log, the files and the record. *)
Lemma harvest_congruence c s1 w1 s2 w2 :
  same_tables s1 s2 → same_disk w1 w2 →
  match harvest tool c s1 w1, harvest tool c s2 w2 with
  | (Return s1', w1'), (Return s2', w2') => same_tables s1' s2' ∧ same_disk w1' w2'
  | (Raise e1, w1'), (Raise e2, w2') => e1 = e2 ∧ same_disk w1' w2'
  | _, _ => False
  end.
Proof.
  intros (Hm & Ho & Hl) (Hf & Hr).
  pose proof (harvest_cases tool c s1 w1) as H1.
  pose proof (harvest_cases tool c s2 w2) as H2.
  cbn zeta in H1, H2. rewrite <- Hf in H2.
  destruct (decode_utf8 _) as [e|text].
  - rewrite H1, H2. split; [done|]. split; cbn; [done|]. by rewrite Hr.
  - destruct H1 as (s1' & w1' & -> & Hm1 & Ho1 & _ & _ & _ & Hl1 & Hf1 & Hr1 & _).
    destruct H2 as (s2' & w2' & -> & Hm2 & Ho2 & _ & _ & _ & Hl2 & Hf2 & Hr2 & _).
    split.
    + unfold same_tables. rewrite Hm1, Hm2, Ho1, Ho2, Hl1, Hl2, Hm, Ho, Hl. done.
    + unfold same_disk. rewrite Hf1, Hf2, Hr1, Hr2, Ho1, Ho2, Hm, Ho. done.
Qed.

Lemma for_each_snoc {S A B} (l : list A) (x : A) (body : A → B → M S B)
    (acc : B) (s : S) :
  for_each (l ++ [x]) body acc s
  = match for_each l body acc s with
    | (Return acc', s') => body x acc' s'
    | (Raise e, s') => (Raise e, s')
    | (OutOfFuel, s') => (OutOfFuel, s')
    end.
Proof.
  rewrite for_each_app. unfold mbind, M_bind, bind.
  destruct (for_each l body acc s) as [[acc'|e|] s']; [|done..].
  cbn [for_each]. unfold mbind, M_bind, bind.
  by destruct (body x acc' s') as [[acc''|e|] s''].
Qed.

(** The files, the record and the tables at the end of a dispatch are
    those left by harvesting, one after another, the processes it waited
    for. *)
Lemma run_mc2_as_harvested fuel self w :
  ∃ new,
    trace (run_mc2 tool fuel self w).2 = trace w ++ new
    ∧ as_harvested (run_mc2 tool fuel self w)
                   (for_each (waited new) (harvest tool) self w).
Proof.
  set (I := λ (s : Motioncorr) (w' : World),
              ∃ new, trace w' = trace w ++ new
                     ∧ as_harvested (Return s, w')
                                    (for_each (waited new) (harvest tool) self w)).
  set (E := λ (oe : option Exception) (w' : World),
              ∃ new, trace w' = trace w ++ new
                     ∧ as_harvested
                         (match oe with Some e => Raise e | None => OutOfFuel end, w')
                         (for_each (waited new) (harvest tool) self w)).
  assert (I self w) as HI.
  { exists []. rewrite app_nil_r. split; [done|]. cbn. split; [done|].
    by exists self. }
  pose proof (run_mc2_inv tool I E (λ _, True)) as Hinv.
  assert (Hrun : match run_mc2 tool fuel self w with
                 | (Return self', w') => I self' w'
                 | (Raise e, w') => E (Some e) w'
                 | (OutOfFuel, w') => E None w'
                 end).
  { apply Hinv; [..|exact HI].
    - done.
    - intros s w' f (new & Htr & Hd & s' & Hh & Ht). exists new.
      split; [done|]. split; [done|]. by exists s'.
    - intros s w' c (new & Htr & Hd & s' & Hh & Ht) _.
      exists (new ++ [Popen c]). cbn [emit set_trace trace]. rewrite Htr, <- app_assoc.
      split; [done|]. rewrite waited_app. cbn. rewrite app_nil_r.
      split; [done|]. by exists s'.
    - intros s w' c (new & Htr & Hd & s2 & Hh & Ht) _ s' w'' Heq.
      pose proof (harvest_return tool c s w' _ _ Heq)
        as (_ & _ & _ & _ & _ & _ & _ & _ & _ & Htr').
      eexists (new ++ [_; _]). rewrite Htr', Htr, <- app_assoc. split; [done|].
      rewrite waited_app. cbn [waited omap option_bind mbind app]. cbn.
      rewrite for_each_snoc.
      destruct (for_each (waited new) (harvest tool) self w) as [r2 w2].
      cbn in Hd, Hh. subst r2.
      pose proof (harvest_congruence c s w' s2 w2 Ht Hd) as Hc.
      rewrite Heq in Hc.
      destruct (harvest tool c s2 w2) as [[s2'|e|] w2']; [|done..].
      destruct Hc as [Ht' Hd']. split; [done|]. by exists s2'.
    - intros s w' c (new & Htr & Hd & s2 & Hh & Ht) _ e w'' Heq.
      pose proof (harvest_raise tool c s w' _ _ Heq) as [-> Hw''].
      eexists (new ++ [_]). rewrite Hw''. cbn [emit set_trace trace set_files].
      rewrite Htr, <- app_assoc. split; [done|].
      rewrite waited_app. cbn [waited omap option_bind mbind app]. cbn.
      rewrite for_each_snoc.
      destruct (for_each (waited new) (harvest tool) self w) as [r2 w2].
      cbn in Hd, Hh. subst r2.
      pose proof (harvest_congruence c s w' s2 w2 Ht Hd) as Hc.
      rewrite Heq in Hc.
      destruct (harvest tool c s2 w2) as [[s2'|e|] w2']; [done| |done].
      destruct Hc as [<- Hd']. rewrite Hw'' in Hd'. split; [exact Hd'|done].
    - intros s w' c e (new & Htr & Hd & s2 & Hh & Ht) _ Hy.
      apply yield_chunks_out_of_range in Hy as (_ & _ & msg & ->).
      exists (new ++ [Popen c]). cbn [emit set_trace trace]. rewrite Htr, <- app_assoc.
      split; [done|]. rewrite waited_app. cbn. rewrite app_nil_r.
      split; [done|]. by exists s2.
    - intros s w' (new & Htr & Hd & s2 & Hh & Ht). exists new.
      split; [done|]. split; [done|]. by exists s2. }
  destruct (run_mc2 tool fuel self w) as [[self'|e|] w'] eqn:Hr; cbn; exact Hrun.
Qed.

End mc_harvests.

(** ** The order in which processes are started and waited for *)

Section mc_steps.
Import motioncorr motioncorr_spec.
Context (tool : command → gset string → Process).

Lemma loc_loc {R} (f g : R → bool) (df : pd.frame R) :
  pd.loc f (pd.loc g df) = pd.loc (λ r, g r && f r) df.
Proof.
  unfold pd.loc. induction df as [|[i r] df IH]; cbn; [done|].
  destruct (g r); cbn; [destruct (f r)|]; by rewrite IH.
Qed.

Lemma loc_ext {R} (f g : R → bool) (df : pd.frame R) :
  (∀ r, r ∈ pd.rows df → f r = g r) → pd.loc f df = pd.loc g df.
Proof.
  intros H. unfold pd.loc. apply filter_ext_in. intros [i r] Hin. cbn.
  apply H. unfold pd.rows. apply list_elem_of_fmap. exists (i, r).
  split; [done|]. by apply list_elem_of_In.
Qed.

Lemma loc_comm {R} (f g : R → bool) (df : pd.frame R) :
  pd.loc f (pd.loc g df) = pd.loc g (pd.loc f df).
Proof. rewrite !loc_loc. apply loc_ext. intros r _. apply andb_comm. Qed.

Lemma elem_of_rows_loc {R} (f : R → bool) (df : pd.frame R) r :
  r ∈ pd.rows (pd.loc f df) ↔ r ∈ pd.rows df ∧ f r = true.
Proof. rewrite rows_loc. apply elem_of_filter_bool. Qed.

Lemma rows_nil_len {R} (df : pd.frame R) : pd.rows df = [] ↔ pd.len df = 0%nat.
Proof. rewrite len_rows. by destruct (pd.rows df). Qed.

Lemma runs_ret {A} (a : A) w : runs [] w (Return a, w).
Proof. exists []. rewrite app_nil_r. repeat split; done. Qed.

(** Sequential composition: what follows a computation that stops early is
    never started. *)
Lemma runs_bind {A B} (P : list step → Prop) (m : M World A) (k : A → M World B)
    w exp1 :
  runs exp1 w (m w) →
  (∀ a w1, m w = (Return a, w1) → ∃ exp2, P exp2 ∧ runs exp2 w1 (k a w1)) →
  (∃ exp2, P exp2) →
  ∃ exp2, P exp2 ∧ runs (exp1 ++ exp2) w ((m ≫= k) w).
Proof.
  intros (new1 & Htr1 & Hpre1 & Hret1) Hk Hex.
  unfold mbind, M_bind, bind.
  destruct (m w) as [[a|e|] w1] eqn:Hm; cbn in *.
  - destruct (Hk a w1 eq_refl) as (exp2 & HP & new2 & Htr2 & Hpre2 & Hret2).
    exists exp2. split; [done|]. exists (new1 ++ new2).
    rewrite Htr2, Htr1, <- app_assoc. split; [done|].
    unfold follows. rewrite steps_app, (Hret1 a eq_refl). split.
    + by apply prefix_app.
    + intros b Hb. by rewrite (Hret2 b Hb).
  - destruct Hex as (exp2 & HP). exists exp2. split; [done|]. exists new1.
    split; [done|]. split; [by apply prefix_app_r|done].
  - destruct Hex as (exp2 & HP). exists exp2. split; [done|]. exists new1.
    split; [done|]. split; [by apply prefix_app_r|done].
Qed.

Lemma runs_bind_fixed {A B} (m : M World A) (k : A → M World B) w exp1 exp2 :
  runs exp1 w (m w) →
  (∀ a w1, m w = (Return a, w1) → runs exp2 w1 (k a w1)) →
  runs (exp1 ++ exp2) w ((m ≫= k) w).
Proof.
  intros Hm Hk.
  destruct (runs_bind (λ e, e = exp2) m k w exp1 Hm) as (e & -> & Hr); [|by eexists|done].
  intros a w1 Heq. exists exp2. split; [done|]. by apply Hk.
Qed.

(** The processes of a chunk are waited for one after another. *)
Lemma harvest_all_runs (job : list command) self w :
  runs (Wait <$> job) w (for_each job (harvest tool) self w).
Proof.
  revert self w. induction job as [|c job IH]; intros self w; cbn [for_each].
  - apply runs_ret.
  - change (Wait <$> c :: job) with ([Wait c] ++ (Wait <$> job)).
    apply runs_bind_fixed; [|intros s1 w1 _; apply IH].
    destruct (harvest tool c self w) as [[s1|e|] w1] eqn:Heq.
    + pose proof (harvest_return tool c self w _ _ Heq)
        as (_ & _ & _ & _ & _ & _ & _ & _ & _ & Htr).
      eexists. split; [exact Htr|]. split; [done|]. done.
    + pose proof (harvest_raise tool c self w _ _ Heq) as [_ ->].
      eexists [_]. split; [done|]. split; [done|]. done.
    + by apply harvest_fuel in Heq.
Qed.

Lemma steps_Popen (job : list command) : steps (Popen <$> job) = Start <$> job.
Proof. induction job as [|c job IH]; [done|]. cbn. by rewrite <- IH. Qed.

(** A chunk: every process is started, then every process is waited for. *)
Lemma run_chunk_runs (job : list command) self w :
  runs (chunk_steps job) w (run_chunk tool job self w).
Proof.
  unfold run_chunk. apply runs_bind_fixed.
  - rewrite spawn_all_spec. exists (Popen <$> job). cbn.
    split; [done|]. unfold follows. rewrite steps_Popen. split; done.
  - intros processes w1 Heq. rewrite spawn_all_spec in Heq.
    injection Heq as <- <-. apply harvest_all_runs.
Qed.

Lemma chunks_run (chunks : list (list command)) self w :
  runs (pass_steps chunks) w (for_each chunks (run_chunk tool) self w).
Proof.
  revert self w. induction chunks as [|job chunks IH]; intros self w; cbn [for_each].
  - apply runs_ret.
  - unfold pass_steps. rewrite fmap_cons.
    change (mjoin (?x :: ?ls)) with (x ++ mjoin ls).
    apply runs_bind_fixed; [apply run_chunk_runs|]. intros s1 w1 _. apply IH.
Qed.

Lemma yield_chunks_inr {A} (jobs : list A) (C : Z) chunks :
  _yield_chunks jobs C = inr chunks → chunks = chunks_of (Z.to_nat (C - 1)) jobs.
Proof.
  unfold _yield_chunks. destruct jobs; [intros [= <-]; by simp chunks_of|].
  destruct (_ || _); [done|]. by intros [= <-].
Qed.

(** One turn of the loop over a tilt-series: chunk after chunk; with a
    bound that [_yield_chunks] refuses, the first process is started and
    nothing else is done. *)
Lemma run_pass_runs self w :
  runs (pass_steps (chunks_of (Z.to_nat (bound self - 1))
                              (image_tuple <$> pd.rows (_curr_meta self))))
       w (run_pass tool self w).
Proof.
  unfold run_pass. fold (bound self).
  set (commands := image_tuple <$> pd.rows (_curr_meta self)).
  destruct (_yield_chunks commands (bound self)) as [e|chunks] eqn:Hy.
  - apply yield_chunks_out_of_range in Hy as (Hne & _).
    destruct commands as [|c cs]; [done|]. cbn.
    exists [Popen c]. split; [done|]. split; [|done].
    simp chunks_of. unfold pass_steps, chunk_steps. cbn.
    apply prefix_cons, prefix_nil.
  - apply yield_chunks_inr in Hy as ->. apply chunks_run.
Qed.

(** What a turn of the loop leaves of the object. *)
Lemma run_pass_keeps (Q : row → Prop) self w self' w' :
  run_pass tool self w = (Return self', w') →
  (∀ r, r ∈ pd.rows (_curr_meta self) → Q r) →
  bound self' = bound self
  ∧ (∀ r, r ∈ pd.rows (_curr_meta self') → Q r)
  ∧ (∀ r, r ∈ pd.rows (meta self') → r ∈ pd.rows (meta self)).
Proof.
  intros Heq HQ.
  set (I := λ (s : Motioncorr) (_ : World),
              bound s = bound self
              ∧ (∀ r, r ∈ pd.rows (_curr_meta s) → Q r)
              ∧ (∀ r, r ∈ pd.rows (meta s) → r ∈ pd.rows (meta self))).
  pose proof (run_pass_inv tool I (λ _ _, True) (λ _, True)) as Hinv.
  assert (match run_pass tool self w with
          | (Return s, w1) => I s w1
          | _ => True
          end) as Hrun.
  { apply Hinv; try done.
    intros s w1 c (Hb & Hc & Hm) _ s' w1' Heq'.
    pose proof (harvest_return tool c s w1 _ _ Heq')
      as (Hm' & _ & Hc' & Hg & Hp & _).
    split; [|split].
    - unfold bound in *. by rewrite Hg, Hp.
    - intros r. rewrite Hc', elem_of_rows_loc. intros [Hr _]. by apply Hc.
    - intros r. rewrite Hm', elem_of_rows_loc. intros [Hr _]. by apply Hm. }
  rewrite Heq in Hrun. exact Hrun.
Qed.

(** The loop over one tilt-series: pass after pass over what is left of
    the series, each cut into chunks of the bound. *)
Lemma while_runs (Q : row → Prop) fuel self w :
  (∀ r, r ∈ pd.rows (_curr_meta self) → Q r) →
  ∃ passes,
    Forall (λ p, p ≠ [] ∧ ∀ c, c ∈ p → ∃ r, Q r ∧ c = image_tuple r) passes
    ∧ runs (mjoin ((λ p, pass_steps (chunks_of (Z.to_nat (bound self - 1)) p))
                     <$> passes))
           w (while_curr_meta tool fuel self w).
Proof.
  revert self w. induction fuel as [|fuel IH]; intros self w HQ;
    cbn [while_curr_meta].
  - exists []. split; [constructor|]. case_bool_decide; cbn.
    + exists []. rewrite app_nil_r. repeat split; done.
    + apply runs_ret.
  - case_bool_decide as Hlen; [|exists []; split; [constructor|apply runs_ret]].
    set (p := image_tuple <$> pd.rows (_curr_meta self)).
    assert (p ≠ [] ∧ ∀ c, c ∈ p → ∃ r, Q r ∧ c = image_tuple r) as Hp.
    { split.
      - unfold p. rewrite len_rows in Hlen.
        destruct (pd.rows (_curr_meta self)); [cbn in Hlen; lia|done].
      - intros c Hc. apply list_elem_of_fmap in Hc as (r & -> & Hr).
        exists r. split; [by apply HQ|done]. }
    destruct (runs_bind
                (λ e, ∃ passes,
                   Forall (λ p, p ≠ [] ∧ ∀ c, c ∈ p → ∃ r, Q r ∧ c = image_tuple r) passes
                   ∧ e = mjoin ((λ p, pass_steps (chunks_of (Z.to_nat (bound self - 1)) p))
                                  <$> passes))
                (run_pass tool self) (while_curr_meta tool fuel) w
                (pass_steps (chunks_of (Z.to_nat (bound self - 1)) p)))
      as (e & (passes & Hpasses & ->) & Hruns).
    + by apply run_pass_runs.
    + intros s1 w1 Heq.
      destruct (run_pass_keeps Q self w s1 w1 Heq HQ) as (Hb & HQ1 & _).
      destruct (IH s1 w1) as (passes & Hpasses & Hruns); [done|].
      rewrite Hb in Hruns. eexists. split; [|exact Hruns]. by exists passes.
    + exists []. exists []. split; [constructor|done].
    + exists (p :: passes). split; [by constructor|]. exact Hruns.
Qed.

(** What the loop over one tilt-series leaves of the object. *)
Lemma while_keeps fuel self w self' w' :
  while_curr_meta tool fuel self w = (Return self', w') →
  bound self' = bound self
  ∧ pd.rows (_curr_meta self') = []
  ∧ (∀ r, r ∈ pd.rows (meta self') → r ∈ pd.rows (meta self))
  ∧ (∀ curr_ts, current curr_ts self → current curr_ts self').
Proof.
  revert self w. induction fuel as [|fuel IH]; intros self w; cbn [while_curr_meta].
  - case_bool_decide as Hlen; [done|]. intros [= <- <-].
    split; [done|]. split; [apply rows_nil_len; lia|done].
  - case_bool_decide as Hlen.
    + unfold mbind, M_bind, bind.
      destruct (run_pass tool self w) as [[s1|e|] w1] eqn:Hp; [|done..].
      intros Hw. destruct (IH s1 w1 Hw) as (Hb & Hnil & Hm & Hcur).
      destruct (run_pass_keeps (λ _, True) self w s1 w1 Hp) as (Hb1 & _ & Hm1); [done|].
      split; [congruence|]. split; [done|]. split; [by auto|].
      intros curr_ts Hc. apply Hcur.
      set (I := λ (s : Motioncorr) (_ : World), current curr_ts s).
      pose proof (run_pass_inv tool I (λ _ _, True) (λ _, True)) as Hinv.
      assert (match run_pass tool self w with
              | (Return s, w1) => I s w1
              | _ => True
              end) as Hrun.
      { apply Hinv; try done.
        intros s w2 c HI _ s' w2' Heq'.
        pose proof (harvest_return tool c s w2 _ _ Heq') as (Hm' & _ & Hc' & _).
        unfold I, current in *. rewrite Hc', HI, Hm'. apply loc_comm. }
      rewrite Hp in Hrun. exact Hrun.
    + intros [= <- <-]. split; [done|]. split; [apply rows_nil_len; lia|done].
Qed.

(** When the dispatch returns, no image of a series it went through is
    pending: a series is left only when every image of it has moved to the
    done table. *)
Lemma series_done fuel (series : list Z) self w self' w' :
  for_each series
    (λ curr_ts self,
       while_curr_meta tool fuel
         (set_curr_meta (pd.loc (λ r, bool_decide (ts r = curr_ts)) (meta self)) self))
    self w = (Return self', w') →
  bound self' = bound self
  ∧ ∀ r, r ∈ pd.rows (meta self') → r ∈ pd.rows (meta self) ∧ ts r ∉ series.
Proof.
  revert self w. induction series as [|curr_ts series IH]; intros self w;
    cbn [for_each].
  - intros [= <- <-]. split; [done|]. intros r Hr. split; [done|apply not_elem_of_nil].
  - unfold mbind, M_bind, bind.
    set (self0 := set_curr_meta _ self).
    destruct (while_curr_meta tool fuel self0 w) as [[s1|e|] w1] eqn:Hw; [|done..].
    intros Hrest. destruct (IH s1 w1 Hrest) as (Hb2 & Hm2).
    destruct (while_keeps fuel self0 w s1 w1 Hw) as (Hb1 & Hnil & Hm1 & Hcur).
    split; [by rewrite Hb2, Hb1|].
    intros r Hr. destruct (Hm2 r Hr) as [Hr1 Hts]. split; [by apply Hm1|].
    rewrite not_elem_of_cons. split; [|done]. intros Heq.
    assert (r ∈ pd.rows (_curr_meta s1)) as Hin.
    { rewrite (Hcur curr_ts eq_refl), elem_of_rows_loc. split; [done|].
      by apply bool_decide_eq_true. }
    rewrite Hnil in Hin. by apply elem_of_nil in Hin.
Qed.

(** The whole dispatch: passes over one tilt-series at a time. *)
Lemma series_runs fuel (series : list Z) (self0 : Motioncorr) self w :
  (∀ r, r ∈ pd.rows (meta self) → r ∈ pd.rows (meta self0)) →
  ∃ passes,
    Forall (λ p, p ≠ []
                 ∧ ∃ curr_ts, curr_ts ∈ series
                     ∧ ∀ c, c ∈ p → ∃ r, r ∈ pd.rows (meta self0) ∧ ts r = curr_ts
                                         ∧ c = image_tuple r) passes
    ∧ runs (mjoin ((λ p, pass_steps (chunks_of (Z.to_nat (bound self - 1)) p))
                     <$> passes))
           w (for_each series
                (λ curr_ts self,
                   while_curr_meta tool fuel
                     (set_curr_meta
                        (pd.loc (λ r, bool_decide (ts r = curr_ts)) (meta self)) self))
                self w).
Proof.
  revert self w. induction series as [|curr_ts series IH]; intros self w Hsub;
    cbn [for_each].
  - exists []. split; [constructor|apply runs_ret].
  - set (body := λ curr_ts self,
                   while_curr_meta tool fuel
                     (set_curr_meta
                        (pd.loc (λ r, bool_decide (ts r = curr_ts)) (meta self)) self)) in *.
    set (self1 := set_curr_meta (pd.loc (λ r, bool_decide (ts r = curr_ts)) (meta self)) self).
    set (Q := λ r : row, r ∈ pd.rows (meta self0) ∧ ts r = curr_ts).
    destruct (while_runs Q fuel self1 w) as (passes1 & Hp1 & Hruns1).
    { intros r Hr.
      change (_curr_meta self1)
        with (pd.loc (λ r, bool_decide (ts r = curr_ts)) (meta self)) in Hr.
      apply elem_of_rows_loc in Hr as [Hr Hts]. apply bool_decide_eq_true in Hts.
      split; [by apply Hsub|done]. }
    change (bound self1) with (bound self) in Hruns1.
    set (good := λ (l : list Z) (p : list command),
                   p ≠ [] ∧ ∃ t, t ∈ l
                     ∧ ∀ c, c ∈ p → ∃ r, r ∈ pd.rows (meta self0) ∧ ts r = t
                                         ∧ c = image_tuple r).
    destruct (runs_bind
                (λ e, ∃ passes, Forall (good series) passes
                   ∧ e = mjoin ((λ p, pass_steps (chunks_of (Z.to_nat (bound self - 1)) p))
                                  <$> passes))
                (while_curr_meta tool fuel self1) (for_each series body) w _ Hruns1)
      as (e & (passes2 & Hp2 & ->) & Hruns).
    + intros s1 w1 Heq.
      destruct (while_keeps fuel self1 w s1 w1 Heq) as (Hb & _ & Hm & _).
      destruct (IH s1 w1) as (passes & Hpasses & Hr).
      { intros r Hr. apply Hsub. by apply Hm. }
      change (bound self1) with (bound self) in Hb. rewrite Hb in Hr.
      eexists. split; [|exact Hr]. by exists passes.
    + exists []. exists []. split; [constructor|done].
    + exists (passes1 ++ passes2). split.
      * apply Forall_app. split.
        -- eapply Forall_impl; [exact Hp1|]. intros p [Hne Hc]. split; [done|].
           exists curr_ts. split; [left|]. intros c Hin.
           destruct (Hc c Hin) as (r & [Hr Hts] & ->). by exists r.
        -- eapply Forall_impl; [exact Hp2|]. intros p (Hne & t & Ht & Hc).
           split; [done|]. exists t. split; [by right|done].
      * rewrite fmap_app, join_app. exact Hruns.
Qed.

Lemma run_mc2_runs fuel self w :
  ∃ passes,
    Forall (pass_of self) passes
    ∧ runs (mjoin ((λ p, pass_steps (chunks_of (Z.to_nat (bound self - 1)) p))
                     <$> passes))
           w (run_mc2 tool fuel self w).
Proof. unfold run_mc2. by apply series_runs. Qed.

(** In what a returned dispatch has done, every process started has been
    waited for. *)
Lemma pass_steps_waits (chunks : list (list command)) c :
  Start c ∈ pass_steps chunks → Wait c ∈ pass_steps chunks.
Proof.
  unfold pass_steps. rewrite !list_elem_of_join.
  intros (l & Hc & Hl). exists l. split; [|done].
  apply list_elem_of_fmap in Hl as (chunk & -> & _). unfold chunk_steps in *.
  apply elem_of_app in Hc as [Hc|Hc].
  - apply list_elem_of_fmap in Hc as (c' & [= ->] & Hin).
    apply elem_of_app. right. apply list_elem_of_fmap. by exists c'.
  - apply list_elem_of_fmap in Hc as (c' & Heq & _). done.
Qed.

Lemma elem_of_steps_Start (tr : list event) c : Start c ∈ steps tr ↔ Popen c ∈ tr.
Proof.
  unfold steps. rewrite list_elem_of_omap. split.
  - intros (e & He & Hs). by destruct e; simplify_eq.
  - intros He. by exists (Popen c).
Qed.

Lemma elem_of_steps_Wait (tr : list event) c : Wait c ∈ steps tr ↔ c ∈ waited tr.
Proof.
  unfold steps, waited. rewrite !list_elem_of_omap. split.
  - intros (e & He & Hs). exists e. split; [done|]. by destruct e; simplify_eq.
  - intros (e & He & Hs). exists e. split; [done|]. by destruct e; simplify_eq.
Qed.

Lemma run_mc2_waits fuel self w new self' :
  trace (run_mc2 tool fuel self w).2 = trace w ++ new →
  (run_mc2 tool fuel self w).1 = Return self' →
  ∀ c, Popen c ∈ new → c ∈ waited new.
Proof.
  intros Htr Hret c Hc.
  destruct (run_mc2_runs fuel self w) as (passes & _ & new' & Htr' & _ & Heq).
  rewrite Htr in Htr'. apply app_inv_head in Htr'. subst new'.
  specialize (Heq _ Hret).
  apply elem_of_steps_Wait. apply elem_of_steps_Start in Hc. rewrite Heq in *.
  apply list_elem_of_join in Hc as (l & Hc & Hl).
  apply list_elem_of_fmap in Hl as (p & -> & Hp).
  apply list_elem_of_join. eexists. split; [by apply pass_steps_waits|].
  apply list_elem_of_fmap. by exists p.
Qed.

Lemma run_mc2_done fuel self w self' :
  (run_mc2 tool fuel self w).1 = Return self' →
  ∀ r, r ∈ pd.rows (meta self') →
       r ∈ pd.rows (meta self) ∧ ts r ∉ process_list (params self).
Proof.
  intros Hret. destruct (run_mc2 tool fuel self w) as [r' w'] eqn:Heq.
  cbn in Hret. subst r'. unfold run_mc2 in Heq.
  by destruct (series_done _ _ _ _ _ _ Heq) as [_ H].
Qed.
End mc_steps.

(** ** The claims about the motion-correction stage *)

Section mc_claims.
Import motioncorr motioncorr_spec.
Context (nvidia_smi : Exception + list (string * string) * list string).
Context (tool : command → gset string → Process).

Lemma init_disjoint project_name prm md w self w1 :
  __init__ nvidia_smi project_name prm md w = (Return self, w1) → disjoint self.
Proof.
  intros Hinit. apply init_inv in Hinit
    as (nv & busy & d0 & candidates & _ & _ & _ & _ & Hmeta & _).
  intros r. rewrite Hmeta, rows_loc. intros Hr.
  apply list_elem_of_In, filter_In in Hr as [_ Hr].
  by apply negb_true_iff, bool_decide_eq_false in Hr.
Qed.

Lemma run_disjoint fuel project_name prm md w :
  ∃ new,
    trace (run nvidia_smi tool fuel project_name prm md w).2 = trace w ++ new
    ∧ ∀ s, Export s ∈ new → disjoint s.
Proof.
  unfold run. unfold mbind at 1, M_bind at 1, bind at 1.
  destruct (__init__ nvidia_smi project_name prm md w) as [r w1] eqn:Hinit.
  destruct (init_world _ _ _ _ _ _ _ Hinit) as ((tail & Htr & Htail) & _).
  set (pre := NvidiaSmi :: tail) in *.
  assert (Hnone : ∀ s, Export s ∈ pre → disjoint s).
  { intros s Hs. apply elem_of_cons in Hs as [?|Hs]; [done|].
    destruct Htail as [->|[status ->]]; [by apply elem_of_nil in Hs|].
    by apply list_elem_of_singleton in Hs. }
  destruct r as [self|e|]; [|by exists pre..].
  destruct (no_processes self); cbn [negb]; [by exists pre|].
  unfold mbind, M_bind, bind.
  destruct (run_mc2_disjoint tool fuel self w1 (init_disjoint _ _ _ _ _ _ Hinit))
    as (new & Htr' & Hnew & Hfin).
  destruct (run_mc2 tool fuel self w1) as [[self'|e|] w2]; cbn in *.
  - exists (pre ++ new ++ [Export self']).
    rewrite Htr', Htr, <- !app_assoc. split; [done|].
    intros s. rewrite !elem_of_app.
    intros [Hs|[Hs|Hs]]; [by apply Hnone|by apply Hnew|].
    apply list_elem_of_singleton in Hs. injection Hs as ->. by apply Hfin.
  - exists (pre ++ new). rewrite Htr', Htr, <- !app_assoc. split; [done|].
    intros s. rewrite elem_of_app. intros [Hs|Hs]; [by apply Hnone|by apply Hnew].
  - exists (pre ++ new). rewrite Htr', Htr, <- !app_assoc. split; [done|].
    intros s. rewrite elem_of_app. intros [Hs|Hs]; [by apply Hnone|by apply Hnew].
Qed.
End mc_claims.

(** C3. After reconciliation in the constructor, and at every write of the
    record during a run (one after each harvested process, one at the end),
    no output path is both in the pending table [meta] and in the done table
    [meta_out]. *)
Theorem pending_and_done_share_no_output
    (nvidia_smi : Exception + list (string * string) * list string)
    (tool : motioncorr.command → gset string → Process) (fuel : nat)
    (project_name : string) (prm : motioncorr.Params)
    (md : list motioncorr.md_row) (w : motioncorr.World) :
  (∀ self w1,
     motioncorr.__init__ nvidia_smi project_name prm md w = (Return self, w1) →
     motioncorr_spec.disjoint self)
  ∧ ∃ new,
      motioncorr.trace (motioncorr.run nvidia_smi tool fuel project_name prm md w).2
      = motioncorr.trace w ++ new
      ∧ ∀ s, motioncorr.Export s ∈ new → motioncorr_spec.disjoint s.
Proof.
  split; [intros self w1; apply init_disjoint | apply run_disjoint].
Qed.

(** C8.  Harvesting one process whose output decodes moves every pending
    row whose output file is then on disk, and no other, to the done table
    and writes that done table to the record at once; when the output
    cannot be decoded the harvest fails and nothing is moved or written.
    In a whole dispatch every harvest is followed at once by such a write,
    before the next process is harvested (unless the run fails on the
    output of that process), the record on disk is the done table of the
    last write, the files, the record and the tables at the end are those
    left by harvesting one after another the processes waited for, and a
    dispatch that returns has waited for every process it started and left
    no image of the process list pending. *)
Theorem checkpoint_after_every_harvest
    (tool : motioncorr.command → gset string → Process) (fuel : nat)
    (process : motioncorr.command) (self : motioncorr.Motioncorr)
    (w : motioncorr.World) :
  (let p := tool process (motioncorr.files w) in
   let on_disk (r : motioncorr.row) :=
     bool_decide (motioncorr.output r ∈ files_after p) in
   match decode_utf8 (out p +:+ err p) with
   | inr text =>
       ∃ self' w',
         motioncorr.harvest tool process self w = (Return self', w')
         ∧ motioncorr.meta self'
           = pd.loc (λ r, negb (on_disk r)) (motioncorr.meta self)
         ∧ motioncorr.meta_out self'
           = pd.concat_ignore_index
               [motioncorr.meta_out self; pd.loc on_disk (motioncorr.meta self)]
         ∧ motioncorr.log self' = motioncorr.log self ++ [text]
         ∧ motioncorr.files w' = files_after p
         ∧ motioncorr.mc2_mdout w' = Some (motioncorr.meta_out self')
         ∧ motioncorr.trace w'
           = motioncorr.trace w
             ++ [motioncorr.Communicate process (returncode p);
                 motioncorr.Export self']
   | inl e =>
       motioncorr.harvest tool process self w
       = (Raise e,
          motioncorr.emit (motioncorr.Communicate process (returncode p))
            (motioncorr.set_files (files_after p) w))
   end)
  ∧ ∃ new,
      motioncorr.trace (motioncorr.run_mc2 tool fuel self w).2
      = motioncorr.trace w ++ new
      ∧ motioncorr_spec.checkpointed new (motioncorr.run_mc2 tool fuel self w).1
      ∧ motioncorr_spec.record_follows w new (motioncorr.run_mc2 tool fuel self w).2
      ∧ motioncorr_spec.as_harvested
          (motioncorr.run_mc2 tool fuel self w)
          (for_each (motioncorr_spec.waited new) (motioncorr.harvest tool) self w)
      ∧ ∀ self', (motioncorr.run_mc2 tool fuel self w).1 = Return self' →
          (∀ c, motioncorr.Popen c ∈ new → c ∈ motioncorr_spec.waited new)
          ∧ ∀ r, r ∈ pd.rows (motioncorr.meta self') →
                 motioncorr.ts r
                 ∉ motioncorr.process_list (motioncorr.params self).
Proof.
  split.
  - pose proof (harvest_cases tool process self w) as Hc. cbn zeta in *.
    destruct (decode_utf8 _) as [e|text]; [exact Hc|].
    destruct Hc as (self' & w' & H). exists self', w'. tauto.
  - destruct (run_mc2_checkpoints tool fuel self w) as (new & Htr & Hck & Hrec).
    destruct (run_mc2_as_harvested tool fuel self w) as (new' & Htr' & Hh).
    assert (new' = new) as -> by (rewrite Htr in Htr'; by apply app_inv_head in Htr').
    exists new. split; [done|]. split; [done|]. split; [done|]. split; [done|].
    intros self' Hret. split.
    + by eapply run_mc2_waits.
    + intros r Hr. by eapply run_mc2_done.
Qed.




(** C5, as the code has it.  Every pending row is given the first free
    device reported by nvidia-smi, once, in the constructor; every process
    of the dispatch is started on that device. *)
Theorem every_item_on_first_free_device
    (nvidia_smi : Exception + list (string * string) * list string)
    (tool : motioncorr.command → gset string → Process)
    (project_name : string) (prm : motioncorr.Params)
    (md : list motioncorr.md_row) (w : motioncorr.World)
    (self : motioncorr.Motioncorr) (w1 : motioncorr.World)
    (Hinit : motioncorr.__init__ nvidia_smi project_name prm md w = (Return self, w1)) :
  ∃ nv_uuid nv_processes d0,
    nvidia_smi = inr (nv_uuid, nv_processes)
    ∧ motioncorr.use_gpu self
      = (List.filter (λ g : string * string, negb (bool_decide (g.2 ∈ nv_processes)))
                     nv_uuid).*1
    ∧ motioncorr.use_gpu self !! 0%nat = Some d0
    ∧ Forall (λ r, motioncorr.gpu r = d0) (pd.rows (motioncorr.meta self))
    ∧ ∀ fuel w2, ∃ new,
        motioncorr.trace (motioncorr.run_mc2 tool fuel self w2).2
        = motioncorr.trace w2 ++ new
        ∧ ∀ cmd, motioncorr.Popen cmd ∈ new → motioncorr.gpu_number cmd = d0.
Proof.
  apply init_inv in Hinit
    as (nv & busy & d0 & candidates & Hsmi & Hfree & Hd0 & Hcand & Hmeta & _ & _ & Hcurr & _).
  exists nv, busy, d0. split; [done|]. split; [done|]. split; [done|].
  assert (Forall (λ r, motioncorr.gpu r = d0) (pd.rows (motioncorr.meta self))) as Hm.
  { rewrite Hmeta, rows_loc, Forall_forall. rewrite Forall_forall in Hcand.
    intros r Hr. apply Hcand. apply list_elem_of_In, filter_In in Hr as [Hr _].
    by apply list_elem_of_In. }
  split; [done|]. intros fuel w2. apply run_mc2_device; [done|].
  rewrite Hcurr. constructor.
Qed.

Lemma every_item_on_first_free_device_witness :
  match motioncorr.__init__ example.two_free_gpus "proj" (example.mc2_params [1; 2])
          example.three_images example.empty_world with
  | (Return self, _) =>
      ∃ d0, motioncorr.use_gpu self !! 0%nat = Some d0
            ∧ Forall (λ r, motioncorr.gpu r = d0) (pd.rows (motioncorr.meta self))
  | _ => False
  end.
Proof.
  destruct (motioncorr.__init__ example.two_free_gpus "proj" (example.mc2_params [1; 2])
              example.three_images example.empty_world) as [[self|e|] w1] eqn:Hinit.
  - destruct (every_item_on_first_free_device _ example.reliable _ _ _ _ _ _ Hinit)
      as (_ & _ & d0 & _ & _ & Hd0 & Hall & _).
    by exists d0.
  - vm_compute in Hinit. discriminate Hinit.
  - vm_compute in Hinit. discriminate Hinit.
Defined.

(** C5 as stated fails: with two free devices, round-robin would give the
    second image device 1; the constructor gives every image device 0. *)
Lemma second_item_not_on_second_device :
  match motioncorr.__init__ example.two_free_gpus "proj" (example.mc2_params [1; 2])
          example.three_images example.empty_world with
  | (Return self, _) =>
      motioncorr.use_gpu self = ["0"; "1"]
      ∧ Some ∘ motioncorr.gpu <$> pd.rows (motioncorr.meta self)
        = [Some "0"; Some "0"; Some "0"]
      ∧ motioncorr_spec.round_robin (motioncorr.use_gpu self) 3
        = [Some "0"; Some "1"; Some "0"]
  | _ => False
  end.
Proof. vm_compute. done. Qed.

(** C4, as the code has it.  [no_processes] is set exactly when
    reconciliation leaves the pending table empty, whether or not the done
    table holds anything; when it is set, [run] starts no MotionCor2 process
    and leaves the files on disk and the record as they were.  The devices
    have been queried by then, and the output folder has been created if it
    was not there: the constructor does both whatever reconciliation
    finds. *)
Theorem no_processes_iff_nothing_pending
    (nvidia_smi : Exception + list (string * string) * list string)
    (tool : motioncorr.command → gset string → Process) (fuel : nat)
    (project_name : string) (prm : motioncorr.Params)
    (md : list motioncorr.md_row) (w : motioncorr.World)
    (self : motioncorr.Motioncorr) (w1 : motioncorr.World)
    (Hinit : motioncorr.__init__ nvidia_smi project_name prm md w = (Return self, w1)) :
  (motioncorr.no_processes self = true ↔ pd.rows (motioncorr.meta self) = [])
  ∧ (motioncorr.no_processes self = true →
     motioncorr.run nvidia_smi tool fuel project_name prm md w = (Return tt, w1)
     ∧ motioncorr.trace w1
       = motioncorr.trace w
         ++ motioncorr.NvidiaSmi
            :: (if motioncorr.isdir w (motioncorr.output_path prm) then []
                else [motioncorr.Mkdir (motioncorr.output_path prm) 0])
     ∧ motioncorr.files w1 = motioncorr.files w
     ∧ motioncorr.mc2_mdout w1 = motioncorr.mc2_mdout w).
Proof.
  destruct (init_world _ _ _ _ _ _ _ Hinit) as (_ & Hf & Hr).
  pose proof Hinit as Hi. apply init_inv in Hi
    as (nv & busy & d0 & candidates & _ & _ & _ & _ & _ & Hno & _ & _ & Htr).
  split; [done|]. intros Hnp. split; [|done].
  unfold motioncorr.run. unfold mbind at 1, M_bind at 1, bind at 1.
  by rewrite Hinit, Hnp.
Qed.

Lemma no_processes_iff_nothing_pending_witness :
  match motioncorr.__init__ example.one_free_gpu "proj" (example.mc2_params [])
          example.three_images example.empty_world with
  | (Return self, w1) =>
      motioncorr.no_processes self = true
      ∧ motioncorr.run example.one_free_gpu example.reliable 1 "proj"
          (example.mc2_params []) example.three_images example.empty_world
        = (Return tt, w1)
  | _ => False
  end.
Proof.
  destruct (motioncorr.__init__ example.one_free_gpu "proj" (example.mc2_params [])
              example.three_images example.empty_world) as [[self|e|] w1] eqn:Hinit.
  - destruct (no_processes_iff_nothing_pending _ example.reliable 1 _ _ _ _ _ _ Hinit)
      as [Hiff Hrun].
    assert (motioncorr.no_processes self = true) as Hnp.
    { vm_compute in Hinit. by injection Hinit as <- <-. }
    split; [exact Hnp|]. by apply Hrun.
  - vm_compute in Hinit. discriminate Hinit.
  - vm_compute in Hinit. discriminate Hinit.
Defined.

(** C4 as stated fails: with nothing declared and no record at all, the
    flag is set although the done table is empty, and the devices have
    been queried (and the output folder created). *)
Lemma all_done_with_empty_done_table :
  motioncorr.mc2_mdout example.empty_world = None
  ∧ match motioncorr.__init__ example.one_free_gpu "proj" (example.mc2_params [])
            example.three_images example.empty_world with
    | (Return self, w1) =>
        motioncorr.no_processes self = true
        ∧ motioncorr.meta_out self = []
        ∧ motioncorr.trace w1 = [motioncorr.NvidiaSmi; motioncorr.Mkdir "mc2/" 0]
    | _ => False
    end.
Proof. vm_compute. done. Qed.

(** ** Reconciliation in the alignment stage *)

Section align_reconcile.
Import align.

(** What [_check_aligned_images] does, in one statement. *)
Lemma check_aligned_images_cases self w :
  let record := pd.drop_duplicates (default [] (align_mdout w)) in
  let missing_specified :=
    pd.concat_ignore_index
      (pd.DataFrame [] ::
       ((λ curr_ts, pd.loc (λ r, bool_decide (ts r = curr_ts))
                      (pd.loc (λ r, negb (isfile w (align_output r))) record))
          <$> process_list (params self))) in
  let reinstated :=
    if bool_decide (0 < pd.len record)%nat
    then pd.getitem_bool record
           (pd.merge_left_only (pd.rows record) (pd.rows missing_specified))
    else inr record in
  match reinstated with
  | inl e => _check_aligned_images self w = (Raise e, w)
  | inr kept =>
      let in_record (r : row) :=
        bool_decide (align_output r ∈ align_output <$> pd.rows kept) in
      let ignored := pd.loc in_record (_align_images self) in
      ∃ w' rest,
        match pd.getitem_bool (_align_images self)
                (pd.merge_left_only (pd.rows (_align_images self)) (pd.rows ignored))
        with
        | inl e => _check_aligned_images self w = (Raise e, w')
        | inr remaining =>
            ∃ self',
              _check_aligned_images self w = (Return self', w')
              ∧ meta_out self' = kept
              ∧ _align_images self' = remaining
              ∧ _process_list self'
                = pd.unique (pd.sort_values (ts <$> pd.rows remaining))
              ∧ no_processes self'
                = no_processes self
                  || bool_decide (pd.len ignored = pd.len (_align_images self))
              ∧ params self' = params self
        end
        ∧ trace w' = trace w ∧ files w' = files w ∧ align_mdout w' = align_mdout w
        ∧ logged w'
          = logged w
            ++ (if bool_decide (0 < pd.len record)%nat
                   && bool_decide (0 < pd.len missing_specified)%nat
                then [missing_message (pd.len missing_specified)] else [])
            ++ rest
  end.
Proof.
  intros record missing_specified reinstated. subst reinstated.
  unfold _check_aligned_images.
  unfold mbind, M_bind, bind, get, lift, logObj, modify, mret, M_ret, ret, raise.
  cbn -[pd.loc pd.getitem_bool pd.merge_left_only pd.concat_ignore_index
        pd.DataFrame pd.rows pd.len pd.drop_duplicates pd.unique pd.sort_values].
  fold record. fold missing_specified.
  destruct (bool_decide (0 < pd.len record)%nat);
    [destruct (pd.getitem_bool record _) as [e|kept]; [done|];
     cbn -[pd.loc pd.getitem_bool pd.merge_left_only pd.concat_ignore_index
           pd.DataFrame pd.rows pd.len pd.drop_duplicates pd.unique pd.sort_values];
     destruct (bool_decide (0 < pd.len missing_specified)%nat)|];
    cbn -[pd.loc pd.getitem_bool pd.merge_left_only pd.concat_ignore_index
          pd.DataFrame pd.rows pd.len pd.drop_duplicates pd.unique pd.sort_values];
    repeat case_bool_decide;
    cbn -[pd.loc pd.getitem_bool pd.merge_left_only pd.concat_ignore_index
          pd.DataFrame pd.rows pd.len pd.drop_duplicates pd.unique pd.sort_values];
    eexists _, _;
    (split;
     [destruct (pd.getitem_bool (_align_images self) _) as [e|remaining];
      cbn -[pd.loc pd.getitem_bool pd.merge_left_only pd.concat_ignore_index
            pd.DataFrame pd.rows pd.len pd.drop_duplicates pd.unique pd.sort_values];
      [reflexivity|];
      eexists; (split; [reflexivity|]);
      cbn -[pd.loc pd.getitem_bool pd.merge_left_only pd.concat_ignore_index
            pd.DataFrame pd.rows pd.len pd.drop_duplicates pd.unique pd.sort_values];
      rewrite ?orb_false_r, ?orb_true_r; repeat split; try done; lia
     |]);
    cbn -[pd.loc pd.concat_ignore_index pd.DataFrame pd.rows pd.len
          pd.drop_duplicates];
    rewrite <- ?app_assoc; repeat split; try reflexivity; by rewrite app_nil_r.
Qed.
End align_reconcile.

Section more_frame_facts.
Context {R : Type} `{EqDecision R}.




Lemma getitem_bool_error (df : pd.frame R) (mask : list bool) e :
  pd.getitem_bool df mask = inl e → ∃ msg, e = IndexingError msg.
Proof.
  unfold pd.getitem_bool. destruct (forallb _ _); [done|].
  intros [= <-]. by eexists.
Qed.

Lemma getitem_bool_NoDup (df : pd.frame R) (mask : list bool) kept :
  pd.getitem_bool df mask = inr kept → NoDup (pd.rows df) → NoDup (pd.rows kept).
Proof.
  intros Hk Hnd. apply (sublist_NoDup _ (pd.rows df)); [exact Hnd|].
  eapply getitem_bool_sublist, Hk.
Qed.
End more_frame_facts.

Section align_reinstatement.
Import align.


Lemma check_aligned_images_outcome self w :
  match _check_aligned_images self w with
  | (Return self', _) => NoDup (pd.rows (meta_out self'))
  | (Raise e, _) => ∃ msg, e = IndexingError msg
  | (OutOfFuel, _) => False
  end.
Proof.
  pose proof (check_aligned_images_cases self w) as Hc. cbn zeta in Hc.
  destruct (bool_decide (0 < pd.len (pd.drop_duplicates (default [] (align_mdout w))))%nat).
  - destruct (pd.getitem_bool (pd.drop_duplicates _) _) as [e|kept] eqn:Hk.
    + rewrite Hc. eapply getitem_bool_error, Hk.
    + assert (NoDup (pd.rows kept)) as Hnd.
      { eapply getitem_bool_NoDup; [exact Hk|]. apply NoDup_drop_duplicates. }
      destruct Hc as (w' & rest & Hmain & _).
      destruct (pd.getitem_bool (_align_images self) _) as [e|remaining] eqn:Hrem.
      * rewrite Hmain. eapply getitem_bool_error, Hrem.
      * destruct Hmain as (self' & -> & -> & _). exact Hnd.
  - destruct Hc as (w' & rest & Hmain & _).
    destruct (pd.getitem_bool (_align_images self) _) as [e|remaining] eqn:Hrem.
    + rewrite Hmain. eapply getitem_bool_error, Hrem.
    + destruct Hmain as (self' & -> & -> & _). apply NoDup_drop_duplicates.
Qed.

Lemma update_align_metadata_spec ext self w :
  ∃ self',
    update_align_metadata ext self w = (Return self', w)
    ∧ meta_out self'
      = pd.drop_duplicates
          (pd.concat_ignore_index
             [if ext then _align_images self else meta_out self;
              pd.loc (λ r, isfile w (align_output r)) (_align_images self)])
    ∧ _align_images self'
      = pd.loc (λ r, negb (isfile w (align_output r))) (_align_images self)
    ∧ NoDup (pd.rows (meta_out self')).
Proof.
  eexists. split; [reflexivity|]. destruct ext; cbn -[pd.drop_duplicates pd.concat_ignore_index pd.loc];
    (split; [done|]); (split; [done|]); apply NoDup_drop_duplicates.
Qed.
End align_reinstatement.

(** ** Failure of an external program in the alignment stage *)

Section align_abort.
Import align align_spec.
Context (tool : invocation → gset string → Process).




(** A loop over the series whose body either checkpoints after a program
    that did not fail, or raises, leaving the record alone; [failure] says
    what a program's exit status and output make the body raise. *)
Section loop.
Context (failure : Z → string → option Exception).
Context (body : Z → Align → M World Align).
Context (Hbody : ∀ curr_ts self w,
  match body curr_ts self w with
  | (Return self', w') =>
      ∃ cmd status text, trace w' = trace w ++ [Run cmd status text; Export self']
                         ∧ failure status text = None
                         ∧ align_mdout w' = Some (meta_out self')
  | (Raise e, w') =>
      align_mdout w' = align_mdout w
      ∧ (trace w' = trace w
         ∨ ∃ cmd status text, trace w' = trace w ++ [Run cmd status text]
                              ∧ failure status text = Some e)
  | (OutOfFuel, _) => False
  end).

End loop.


End align_abort.

(** ** Construction of the alignment object *)

Section align_init.
Import align align_spec.






End align_init.

(** ** The claims about failure, reinstatement and duplicates *)



(** On a project of three series whose second stack cannot be made,
    stack creation runs newstack on series 1, checkpoints, runs it on
    series 2 and stops there: series 3 is never started. *)
Example create_stack_stops_at_series_2 :
  let r := align.run align_example.failing_newstack true false false "proj"
             (align_example.align_params [1; 2; 3])
             {| align.files := ∅; align.align_mdout := None;
                align.logged := []; align.trace := [] |} in
  r.1 = Raise (CalledProcessError 2)
  ∧ align_example.observe <$> align.trace r.2
    = [inl ("stacks/ts_01/ts_01.st", 0); inr [];
       inl ("stacks/ts_02/ts_02.st", 2)]
  ∧ align.align_mdout r.2 = Some [].
Proof. vm_compute. done. Qed.

(** A batchruntomo that fails with exit status 1 and a message that is not
    ASCII stops the alignment loop on the decoding of that message: the
    exit status is never looked at, and series 2 is never started. *)
Example align_stack_stops_on_output_that_is_not_ascii :
  let r := align.run align_example.garbled_batchruntomo false true false "proj"
             (align_example.align_params [1; 2])
             {| align.files := ∅; align.align_mdout := None;
                align.logged := []; align.trace := [] |} in
  r.1 = Raise (UnicodeDecodeError "ascii")
  ∧ align_example.observe <$> align.trace r.2 = [inl ("1", 1)]
  ∧ align.align_mdout r.2 = None.
Proof. vm_compute. done. Qed.




(** C6, as the code has it.  The alignment stage drops repeated rows, whole
    rows, when it loads the record and after every append: whenever
    [_check_aligned_images] returns (it can only fail on pandas' alignment
    of a mask) and after every [update_align_metadata] the done table has
    no two equal rows. *)
Theorem alignment_done_table_has_distinct_rows
    (ext : bool) (self : align.Align) (w : align.World) :
  match align._check_aligned_images self w with
  | (Return self', _) => NoDup (pd.rows (align.meta_out self'))
  | (Raise e, _) => ∃ msg, e = IndexingError msg
  | (OutOfFuel, _) => False
  end
  ∧ ∃ self',
      align.update_align_metadata ext self w = (Return self', w)
      ∧ align.meta_out self'
        = pd.drop_duplicates
            (pd.concat_ignore_index
               [if ext then align._align_images self else align.meta_out self;
                pd.loc (λ r, align.isfile w (align.align_output r))
                       (align._align_images self)])
      ∧ NoDup (pd.rows (align.meta_out self')).
Proof.
  split; [apply check_aligned_images_outcome|].
  destruct (update_align_metadata_spec ext self w) as (self' & Heq & Hout & _ & Hnd).
  by exists self'.
Qed.

(** C6 as stated fails.  Two exposures of one series at the same tilt angle
    have the same output path; the motion-correction stage, which never
    drops duplicates, ends with both in its record.  In the alignment stage
    two rows that share their output path and differ in another column both
    stay after loading. *)
Lemma done_table_with_shared_output_path :
  (match motioncorr.mc2_mdout
           (motioncorr.run example.one_free_gpu example.reliable 2 "proj"
              (example.mc2_params [1]) example.repeated_angle example.empty_world).2 with
   | Some record =>
       motioncorr.output <$> pd.rows record
       = ["mc2/ts_001_0.0.mrc"; "mc2/ts_001_0.0.mrc"]
   | None => False
   end)
  ∧ match align.__init__ "proj" (align_example.align_params [])
            align_example.shared_path_world with
    | (Return self, _) =>
        align.align_output <$> pd.rows (align.meta_out self)
        = ["stacks/ts_123/ts_123_ali.mrc"; "stacks/ts_123/ts_123_ali.mrc"]
    | _ => False
    end.
Proof. split; vm_compute; done. Qed.
